(** * postprocessing-example-obj: the demo's startup, scene and frame logic

    A shallow embedding of [src/index.js].  JavaScript numbers are read as
    real numbers (no rounding), loop counters and pixel sizes as integers,
    object references as addresses into a store of three.js nodes, and the
    module-level [let] bindings as fields of one world record that every
    function threads through.  Calls into three.js, postprocessing,
    delta-controls and the browser that the program does not look into are
    recorded in an effect log. *)

From Stdlib Require Import Reals Lra Lia ZArith.
From stdpp Require Import gmap strings list fin_maps pretty.

(** ** three.js values *)

Abbreviation Ref := nat (only parsing).

Module Vector3.
Record t : Type := mk { x : R; y : R; z : R }.
Definition set (_ : t) (x0 y0 z0 : R) : t := mk x0 y0 z0.
Definition set_x (x0 : R) (v : t) : t := mk x0 (y v) (z v).
Definition set_z (z0 : R) (v : t) : t := mk (x v) (y v) z0.
End Vector3.

Module Euler.
Record t : Type := mk { x : R; y : R; z : R }.
Definition set (_ : t) (x0 y0 z0 : R) : t := mk x0 y0 z0.
Definition add_y (a : R) (e : t) : t := mk (x e) (y e + a)%R (z e).
End Euler.

Record FilmOptions : Type := {
  vignette : bool;
  eskil : bool;
  scanlines : bool;
  noise : bool;
  noiseIntensity : R;
  vignetteOffset : R;
  vignetteDarkness : R
}.

Inductive Payload : Type :=
| Group
| Mesh (geometry : R * R * R) (shininess : R)
| Model
| Scene (fogColor : Z) (fogDensity : R)
| PerspectiveCamera (fov aspect near far : R)
| SpotLight (color : Z) (intensity : R)
| HemisphereLight (skyColor groundColor : Z) (intensity : R).

Record Object3D : Type := {
  position : Vector3.t;
  rotation : Euler.t;
  parent : option Ref;
  children : list Ref;
  payload : Payload
}.

(** A new node is at the origin, unrotated and detached; the two lights
    are made at [Object3D.DefaultUp], which is [(0, 1, 0)]. *)
Definition new_Object3D (p : Payload) : Object3D :=
  {| position := match p with
                 | SpotLight _ _ | HemisphereLight _ _ _ => Vector3.mk 0 1 0
                 | _ => Vector3.mk 0 0 0
                 end;
     rotation := Euler.mk 0 0 0;
     parent := None; children := []; payload := p |}.

Definition with_position (f : Vector3.t → Vector3.t) (o : Object3D) : Object3D :=
  {| position := f (position o); rotation := rotation o; parent := parent o;
     children := children o; payload := payload o |}.

Definition with_rotation (f : Euler.t → Euler.t) (o : Object3D) : Object3D :=
  {| position := position o; rotation := f (rotation o); parent := parent o;
     children := children o; payload := payload o |}.

Definition with_parent (p : option Ref) (o : Object3D) : Object3D :=
  {| position := position o; rotation := rotation o; parent := p;
     children := children o; payload := payload o |}.

Definition with_children (f : list Ref → list Ref) (o : Object3D) : Object3D :=
  {| position := position o; rotation := rotation o; parent := parent o;
     children := f (children o); payload := payload o |}.

Definition with_aspect (a : R) (o : Object3D) : Object3D :=
  {| position := position o; rotation := rotation o; parent := parent o;
     children := children o;
     payload := match payload o with
                | PerspectiveCamera fov _ near far => PerspectiveCamera fov a near far
                | p => p
                end |}.

Record WebGLRenderer : Type := {
  antialias : bool;
  alpha : bool;
  shadowMapEnabled : bool;
  canvasSize : Z * Z;
  clearColor : Z
}.

Inductive Pass : Type :=
| RenderPass (scene camera : Ref)
| FilmPass (options : FilmOptions) (renderToScreen : bool).

Record EffectComposer : Type := {
  renderer : WebGLRenderer;
  passes : list Pass
}.

Definition setSize (width height : Z) (c : EffectComposer) : EffectComposer :=
  {| renderer := {| antialias := antialias (renderer c); alpha := alpha (renderer c);
                    shadowMapEnabled := shadowMapEnabled (renderer c);
                    canvasSize := (width, height); clearColor := clearColor (renderer c) |};
     passes := passes c |}.

Definition addPass (p : Pass) (c : EffectComposer) : EffectComposer :=
  {| renderer := renderer c; passes := passes c ++ [p] |}.

(** The clock is a handle; what [getDelta] returns is the host's business
    (field [ticks] of the world).  The handle counts the queries made. *)
Record Clock : Type := { queries : nat }.

(** ** The browser side *)

Inductive EventTarget : Type := window.

Record Event : Type := { target : EventTarget }.

Record Timer : Type := { handle : positive; due : Z; arg : Event }.

Inductive Error : Type :=
| TypeError (what : string)
| LoadError (url : string).

Inductive Call : Type :=
| AppendChild
| AddEventListener (type : string)
| RemoveEventListener (type : string)
| RequestAnimationFrame
| ComposerRender (delta : R)
| UpdateProjectionMatrix
| ControlsLookAt
| TimerFired (at_ms : Z)
| Uncaught (e : Error)
| LoadRequest (url : string)
| ConsoleLog (msg : string)
| ConsoleError (e : Error).

(** ** The world: module-level bindings, the object store, the host *)

Record World : Type := {
  clock : option Clock;
  composer : option EffectComposer;
  camera : option Ref;
  objects : option Ref;
  particles : option Ref;
  id : Z;
  heap : gmap Ref Object3D;
  entropy : nat → R;
  draws : nat;
  ticks : nat → R;
  innerWidth : Z;
  innerHeight : Z;
  viewport : bool;
  now : Z;
  timers : list Timer;
  next_handle : positive;
  calls : list Call
}.

Definition set_clock (v : option Clock) (w : World) : World :=
  {| clock := v; composer := composer w; camera := camera w; objects := objects w;
     particles := particles w; id := id w; heap := heap w; entropy := entropy w;
     draws := draws w; ticks := ticks w; innerWidth := innerWidth w;
     innerHeight := innerHeight w; viewport := viewport w; now := now w;
     timers := timers w; next_handle := next_handle w; calls := calls w |}.

Definition set_composer (v : option EffectComposer) (w : World) : World :=
  {| clock := clock w; composer := v; camera := camera w; objects := objects w;
     particles := particles w; id := id w; heap := heap w; entropy := entropy w;
     draws := draws w; ticks := ticks w; innerWidth := innerWidth w;
     innerHeight := innerHeight w; viewport := viewport w; now := now w;
     timers := timers w; next_handle := next_handle w; calls := calls w |}.

Definition set_camera (v : option Ref) (w : World) : World :=
  {| clock := clock w; composer := composer w; camera := v; objects := objects w;
     particles := particles w; id := id w; heap := heap w; entropy := entropy w;
     draws := draws w; ticks := ticks w; innerWidth := innerWidth w;
     innerHeight := innerHeight w; viewport := viewport w; now := now w;
     timers := timers w; next_handle := next_handle w; calls := calls w |}.

Definition set_objects (v : option Ref) (w : World) : World :=
  {| clock := clock w; composer := composer w; camera := camera w; objects := v;
     particles := particles w; id := id w; heap := heap w; entropy := entropy w;
     draws := draws w; ticks := ticks w; innerWidth := innerWidth w;
     innerHeight := innerHeight w; viewport := viewport w; now := now w;
     timers := timers w; next_handle := next_handle w; calls := calls w |}.

Definition set_particles (v : option Ref) (w : World) : World :=
  {| clock := clock w; composer := composer w; camera := camera w; objects := objects w;
     particles := v; id := id w; heap := heap w; entropy := entropy w;
     draws := draws w; ticks := ticks w; innerWidth := innerWidth w;
     innerHeight := innerHeight w; viewport := viewport w; now := now w;
     timers := timers w; next_handle := next_handle w; calls := calls w |}.

Definition set_id (v : Z) (w : World) : World :=
  {| clock := clock w; composer := composer w; camera := camera w; objects := objects w;
     particles := particles w; id := v; heap := heap w; entropy := entropy w;
     draws := draws w; ticks := ticks w; innerWidth := innerWidth w;
     innerHeight := innerHeight w; viewport := viewport w; now := now w;
     timers := timers w; next_handle := next_handle w; calls := calls w |}.

Definition set_heap (v : gmap Ref Object3D) (w : World) : World :=
  {| clock := clock w; composer := composer w; camera := camera w; objects := objects w;
     particles := particles w; id := id w; heap := v; entropy := entropy w;
     draws := draws w; ticks := ticks w; innerWidth := innerWidth w;
     innerHeight := innerHeight w; viewport := viewport w; now := now w;
     timers := timers w; next_handle := next_handle w; calls := calls w |}.

Definition set_draws (v : nat) (w : World) : World :=
  {| clock := clock w; composer := composer w; camera := camera w; objects := objects w;
     particles := particles w; id := id w; heap := heap w; entropy := entropy w;
     draws := v; ticks := ticks w; innerWidth := innerWidth w;
     innerHeight := innerHeight w; viewport := viewport w; now := now w;
     timers := timers w; next_handle := next_handle w; calls := calls w |}.

Definition set_window (width height : Z) (w : World) : World :=
  {| clock := clock w; composer := composer w; camera := camera w; objects := objects w;
     particles := particles w; id := id w; heap := heap w; entropy := entropy w;
     draws := draws w; ticks := ticks w; innerWidth := width;
     innerHeight := height; viewport := viewport w; now := now w;
     timers := timers w; next_handle := next_handle w; calls := calls w |}.

Definition set_now (v : Z) (w : World) : World :=
  {| clock := clock w; composer := composer w; camera := camera w; objects := objects w;
     particles := particles w; id := id w; heap := heap w; entropy := entropy w;
     draws := draws w; ticks := ticks w; innerWidth := innerWidth w;
     innerHeight := innerHeight w; viewport := viewport w; now := v;
     timers := timers w; next_handle := next_handle w; calls := calls w |}.

Definition set_timers (v : list Timer) (n : positive) (w : World) : World :=
  {| clock := clock w; composer := composer w; camera := camera w; objects := objects w;
     particles := particles w; id := id w; heap := heap w; entropy := entropy w;
     draws := draws w; ticks := ticks w; innerWidth := innerWidth w;
     innerHeight := innerHeight w; viewport := viewport w; now := now w;
     timers := v; next_handle := n; calls := calls w |}.

Definition set_calls (v : list Call) (w : World) : World :=
  {| clock := clock w; composer := composer w; camera := camera w; objects := objects w;
     particles := particles w; id := id w; heap := heap w; entropy := entropy w;
     draws := draws w; ticks := ticks w; innerWidth := innerWidth w;
     innerHeight := innerHeight w; viewport := viewport w; now := now w;
     timers := timers w; next_handle := next_handle w; calls := v |}.

(** ** Statements: a state monad with exceptions

    A statement either completes normally with a value or throws; the world
    it leaves behind is kept in both cases, as a JavaScript exception does
    not undo the assignments made before it. *)

Inductive Completion (A : Type) : Type :=
| Normal (a : A)
| Throw (e : Error).
Arguments Normal {A} a.
Arguments Throw {A} e.

Definition M (A : Type) : Type := World → Completion A * World.

Definition ret {A} (a : A) : M A := λ w, (Normal a, w).

Definition throw {A} (e : Error) : M A := λ w, (Throw e, w).

Definition bind {A B} (m : M A) (k : A → M B) : M B :=
  λ w, match m w with
       | (Normal a, w') => k a w'
       | (Throw e, w') => (Throw e, w')
       end.

Notation "'do' x ← m ; k" := (bind m (λ x, k))
  (at level 10, x name, m at level 100, k at level 200).
Notation "m ;; k" := (bind m (λ _, k))
  (at level 100, k at level 200, right associativity).

Definition get {A} (f : World → A) : M A := λ w, (Normal (f w), w).

Definition modify (f : World → World) : M unit := λ w, (Normal tt, f w).

Definition call (c : Call) : M unit := modify (λ w, set_calls (calls w ++ [c]) w).

(** Reading a property of [undefined] throws a [TypeError]. *)
Definition defined {A} (what : string) (v : option A) : M A :=
  match v with
  | Some a => ret a
  | None => throw (TypeError what)
  end.

(** [for(i = lo; i < hi; ++i) acc = body(i, acc)] over integer bounds. *)
Fixpoint for_from {S} (fuel : nat) (i : Z) (acc : S) (body : Z → S → M S) : M S :=
  match fuel with
  | O => ret acc
  | Datatypes.S fuel' => do acc' ← body i acc; for_from fuel' (i + 1)%Z acc' body
  end.

Definition for_ {S} (lo hi : Z) (acc : S) (body : Z → S → M S) : M S :=
  for_from (Z.to_nat (hi - lo)) lo acc body.

(** ** Object store operations (three.js [Object3D]) *)

Definition alloc (o : Object3D) : M Ref :=
  λ w, let r := fresh (dom (heap w)) in (Normal r, set_heap (<[r := o]> (heap w)) w).

Definition update (r : Ref) (f : Object3D → Object3D) : M unit :=
  modify (λ w, set_heap (alter f r (heap w)) w).

Definition deref (r : Ref) : M Object3D :=
  do h ← get heap; defined "object" (h !! r).

(** [Object3D.add]: an object has at most one parent, so it is first taken
    out of the parent it had; adding an object to itself is refused. *)
Definition add (g c : Ref) : M unit :=
  if decide (g = c) then ret tt
  else
    do o ← deref c;
    match parent o with
    | Some p => update p (with_children (filter (λ r, r ≠ c)))
    | None => ret tt
    end;;
    update c (with_parent (Some g));;
    update g (with_children (λ cs, cs ++ [c])).

(** ** [random] and [createParticleCloud] *)

(** [Math.random()]: the next value of the host's entropy source. *)
Definition Math_random : M R :=
  λ w, (Normal (entropy w (draws w)), set_draws (S (draws w)) w).

Definition random (min max : R) : M R :=
  do u ← Math_random; ret (u * (max - min) + min)%R.

Definition createParticleCloud (n : Z) : M Ref :=
  do particles ← alloc (new_Object3D Group);
  let geometry := (0.35, 0.35, 0.35)%R in
  let material := 100%R in
  for_ 0 n tt (λ _ _,
    do mesh ← alloc (new_Object3D (Mesh geometry material));
    do aG ← random 0 (PI * 2);
    do rG ← random 120 140;
    do yG ← random (-60) 100;
    update mesh (with_position
      (λ p, Vector3.set p (rG * cos aG) yG (rG * sin aG))%R);;
    do r1 ← Math_random;
    do r2 ← Math_random;
    do r3 ← Math_random;
    update mesh (with_rotation (λ e, Euler.set e (r1 * PI) (r2 * PI) (r3 * PI))%R);;
    add particles mesh);;
  ret particles.

(** ** [createParticleCloud] on any number

    [createParticleCloud] above takes the amount of boxes as a count, as
    its documentation has it.  Called with any other number, the loop
    [for(i = 0; i < n; ++i)] compares its counter with that number, and it
    need not end: a run is given [fuel] iterations and yields [None] when
    these do not suffice. *)






(** ** The resize handler *)

(** [setTimeout(handleResize, delay, event)]: the host hands out a fresh
    positive handle and queues the call. *)
Definition setTimeout (delay : Z) (event : Event) : M Z :=
  λ w, let h := next_handle w in
       (Normal (Z.pos h),
        set_timers (timers w ++ [{| handle := h; due := (now w + delay)%Z; arg := event |}])
                   (Pos.succ h) w).

Definition target_innerWidth (t : EventTarget) : M Z :=
  match t with window => get innerWidth end.

Definition target_innerHeight (t : EventTarget) : M Z :=
  match t with window => get innerHeight end.

Definition handleResize (event : Event) : M unit :=
  do width ← target_innerWidth (target event);
  do height ← target_innerHeight (target event);
  do c ← get composer;
  do c ← defined "composer" c;
  modify (set_composer (Some (setSize width height c)));;
  do cam ← get camera;
  do cam ← defined "camera" cam;
  update cam (with_aspect (IZR width / IZR height));;
  call UpdateProjectionMatrix;;
  modify (set_id 0).

Definition onResize (event : Event) : M unit :=
  do i ← get id;
  if (i =? 0)%Z then
    do h ← setTimeout 66 event;
    modify (set_id h)
  else ret tt.

(** The host's side of timers: a queued call runs when its time has come;
    an exception escaping it is reported and goes no further. *)
Definition fire (t : Timer) : M unit :=
  λ w, match (call (TimerFired (due t));; handleResize (arg t))
               (set_now (Z.max (now w) (due t)) w) with
       | (Normal _, w') => (Normal tt, w')
       | (Throw e, w') => (Normal tt, set_calls (calls w' ++ [Uncaught e]) w')
       end.

Fixpoint fire_all (ts : list Timer) : M unit :=
  match ts with
  | [] => ret tt
  | t :: ts' => fire t;; fire_all ts'
  end.

Definition advance (t : Z) : M unit :=
  do ts ← get timers;
  do n ← get next_handle;
  modify (set_timers (filter (λ tm, ¬ (due tm ≤ t)%Z) ts) n);;
  fire_all (filter (λ tm, (due tm ≤ t)%Z) ts);;
  modify (λ w, set_now (Z.max (now w) t) w).

(** The window is resized at time [t] and the event reaches [onResize]. *)
Definition resize (ev : Z * (Z * Z)) : M unit :=
  advance ev.1;;
  modify (set_window ev.2.1 ev.2.2);;
  onResize {| target := window |}.

Fixpoint dispatch (evs : list (Z * (Z * Z))) : M unit :=
  match evs with
  | [] => ret tt
  | ev :: evs' => resize ev;; dispatch evs'
  end.

(** ** [load] *)

Inductive Promise : Type :=
| Pending
| Fulfilled
| Rejected (reason : Error).

Record Loading : Type := {
  assets : gmap string Ref;
  promise : Promise
}.

Definition resolve (l : Loading) : Loading :=
  match promise l with
  | Pending => {| assets := assets l; promise := Fulfilled |}
  | _ => l
  end.

Definition reject (e : Error) (l : Loading) : Loading :=
  match promise l with
  | Pending => {| assets := assets l; promise := Rejected e |}
  | _ => l
  end.

Definition assets_set (k : string) (obj : Ref) (l : Loading) : Loading :=
  {| assets := <[k := obj]> (assets l); promise := promise l |}.

(** What the loader and its manager call back into: [Loaded i obj], the
    model of request [i] has been parsed into the object at [obj] and is
    handed to the callback of that request; [Progress item loaded total],
    the manager's [onProgress]; [Failed url], the manager's [onError]. *)
Inductive LoaderEvent : Type :=
| Loaded (i : Z) (obj : Ref)
| Progress (item : string) (loaded total : Z)
| Failed (url : string).

Definition onLoad (i : Z) (obj : Ref) (l : Loading) : M Loading :=
  call (ConsoleLog ("Loaded object " +:+ pretty i));;
  ret (assets_set ("object" +:+ pretty i) obj l).

Definition onProgress (item : string) (loaded total : Z) (l : Loading) : M Loading :=
  if (loaded =? total)%Z then ret (resolve l) else ret l.

Definition onError (url : string) (l : Loading) : M Loading :=
  ret (reject (LoadError url) l).

Definition load (assets0 : gmap string Ref) : M Loading :=
  for_ 0 4 tt (λ i _, call (LoadRequest ("models/object" +:+ pretty i +:+ ".obj")));;
  ret {| assets := assets0; promise := Pending |}.

Definition handle_event (ev : LoaderEvent) (l : Loading) : M Loading :=
  match ev with
  | Loaded i obj => onLoad i obj l
  | Progress item loaded total => onProgress item loaded total l
  | Failed url => onError url l
  end.

(** ** [initialize] *)

Definition filmOptions : FilmOptions :=
  {| vignette := true; eskil := true; scanlines := false; noise := true;
     noiseIntensity := 1.0; vignetteOffset := 1.0; vignetteDarkness := 1.8 |}.

Definition initialize (assets : gmap string Ref) : M unit :=
  do viewport ← get viewport;
  do width ← get innerWidth;
  do height ← get innerHeight;
  let aspect := (IZR width / IZR height)%R in
  modify (set_clock (Some {| queries := 0 |}));;
  do scene ← alloc (new_Object3D (Scene 0xf4f4f4 0.005));
  let renderer := {| antialias := false; alpha := true; shadowMapEnabled := false;
                     canvasSize := (width, height); clearColor := 0xf4f4f4 |} in
  (if viewport : bool then call AppendChild else throw (TypeError "viewport"));;
  modify (set_composer (Some {| renderer := renderer; passes := [] |}));;
  do particles ← createParticleCloud 2000;
  modify (set_particles (Some particles));;
  add scene particles;;
  do objects ← alloc (new_Object3D Group);
  modify (set_objects (Some objects));;
  for_ 0 4 0%R (λ i angle,
    do obj ← defined "obj" (assets !! ("object" +:+ pretty i));
    update obj (with_position (Vector3.set_x (-100.0 * cos angle)));;
    update obj (with_position (Vector3.set_z (-100.0 * sin angle)));;
    add objects obj;;
    ret (angle + (PI * 2.0) / 4.0)%R);;
  add scene objects;;
  do camera ← alloc (with_position (λ p, Vector3.set p 0 10 0)
                       (new_Object3D (PerspectiveCamera 45 aspect 0.1 1000)));
  modify (set_camera (Some camera));;
  call ControlsLookAt;;
  do spotLight ← alloc (with_position (λ p, Vector3.set p 0 200 0)
                          (new_Object3D (SpotLight 0xffffff 0.8)));
  do hemisphereLight ← alloc (new_Object3D (HemisphereLight 0xff0000 0x340000 0.5));
  add scene hemisphereLight;;
  add scene spotLight;;
  do c ← get composer;
  do c ← defined "composer" c;
  modify (set_composer
    (Some (addPass (FilmPass filmOptions true) (addPass (RenderPass scene camera) c))));;
  call (AddEventListener "resize").

(** ** [render] *)

Definition getDelta : M R :=
  do c ← get clock;
  do c ← defined "clock" c;
  do t ← get ticks;
  modify (set_clock (Some {| queries := S (queries c) |}));;
  ret (t (queries c)).

Definition render (now : option R) : M unit :=
  call RequestAnimationFrame;;
  do delta ← getDelta;
  do g ← get objects;
  do g ← defined "objects" g;
  do group ← deref g;
  let children := children group in
  for_ 0 (Z.of_nat (length children)) tt (λ i _,
    do child ← defined "children[i]" (children !! Z.to_nat i);
    update child (with_rotation (Euler.add_y (delta * 0.5))));;
  do p ← get particles;
  do p ← defined "particles" p;
  update p (with_rotation (Euler.add_y (delta * 0.01)));;
  do c ← get composer;
  do _ ← defined "composer" c;
  call (ComposerRender delta).

(** ** [main]: the promise chain *)

Definition catch_ {A} (m : M A) (handler : Error → M A) : M A :=
  λ w, match m w with
       | (Throw e, w') => handler e w'
       | r => r
       end.

(** [p.then(first).then(second).catch(e => console.error(e))], run once [p]
    has settled; nothing runs while it is pending. *)
Definition chain (first second : M unit) (p : Promise) : M unit :=
  match p with
  | Pending => ret tt
  | Fulfilled => catch_ (first;; second) (λ e, call (ConsoleError e))
  | Rejected reason => catch_ (throw reason) (λ e, call (ConsoleError e))
  end.

(** One callback from the loader; if it settles the promise, the chain runs
    before the next callback is delivered. *)
Definition deliver (ev : LoaderEvent) (l : Loading) : M Loading :=
  do l' ← handle_event ev l;
  match promise l with
  | Pending => chain (initialize (assets l')) (render None) (promise l')
  | _ => ret tt
  end;;
  ret l'.

Fixpoint deliver_all (evs : list LoaderEvent) (l : Loading) : M Loading :=
  match evs with
  | [] => ret l
  | ev :: evs' => do l' ← deliver ev l; deliver_all evs' l'
  end.

Definition main (evs : list LoaderEvent) : M Loading :=
  call (RemoveEventListener "load");;
  do l ← load ∅;
  deliver_all evs l.

(** ** Vocabulary of the statements *)

(** [wp m Q E w]: run from [w], statement [m] either completes normally in
    a world and with a value satisfying [Q], or throws in a world and with
    an error satisfying [E]. *)
Definition wp {A} (m : M A) (Q : A → World → Prop) (E : Error → World → Prop)
    (w : World) : Prop :=
  match m w with
  | (Normal a, w') => Q a w'
  | (Throw e, w') => E e w'
  end.

Definition never : Error → World → Prop := λ _ _, False.

Definition log (cs : list Call) (w : World) : World := set_calls (calls w ++ cs) w.

(** The mesh that [createParticleCloud] builds from the draws numbered
    [d], [d+1], ..., [d+5] of the entropy source [u], once added to [g]. *)
Definition particle (u : nat → R) (d : nat) (g : Ref) : Object3D :=
  let aG := (u d * (PI * 2 - 0) + 0)%R in
  let rG := (u (S d) * (140 - 120) + 120)%R in
  let yG := (u (S (S d)) * (100 - -60) + -60)%R in
  {| position := Vector3.mk (rG * cos aG) yG (rG * sin aG);
     rotation := Euler.mk (u (S (S (S d))) * PI) (u (S (S (S (S d)))) * PI)
                          (u (S (S (S (S (S d))))) * PI);
     parent := Some g; children := [];
     payload := Mesh (0.35, 0.35, 0.35)%R 100 |}.

Definition group_of (ms : list Ref) : Object3D :=
  with_children (λ _, ms) (new_Object3D Group).

(** What the store looks like after [k] particles were added to the fresh
    group [g], starting from world [w]. *)
Definition cloud_store (w : World) (g : Ref) (ms : list Ref) (h : gmap Ref Object3D) : Prop :=
  h !! g = Some (group_of ms) ∧ NoDup ms ∧
  (∀ j m, ms !! j = Some m →
     (m ∉ dom (heap w)) ∧ (m ≠ g) ∧
     (h !! m = Some (particle (entropy w) (draws w + 6 * j) g))) ∧
  (∀ r, r ∈ dom (heap w) → h !! r = heap w !! r).

(** The quarter turn by which [initialize] advances [angle]. *)
Definition quarter : R := (PI * 2.0 / 4.0)%R.

(** Asset [o] after [initialize] has put it on the ring [g] as member [i]. *)
Definition placed (i : Z) (g : Ref) (o : Object3D) : Object3D :=
  with_parent (Some g)
    (with_position (Vector3.set_z (-100.0 * sin (IZR i * quarter)))
       (with_position (Vector3.set_x (-100.0 * cos (IZR i * quarter))) o)).

(** The store once the first [k] assets [rs 0 .. rs (k-1)], which were
    [o 0 .. o (k-1)], are on the ring [g]; [h0] is the store before. *)
Definition ring_store (rs : Z → Ref) (o : Z → Object3D) (g : Ref)
    (h0 : gmap Ref Object3D) (k : nat) (h : gmap Ref Object3D) : Prop :=
  (∃ cs, h !! g = Some (group_of cs) ∧ length cs = k ∧
         ∀ j, j < k → cs !! j = Some (rs (Z.of_nat j))) ∧
  (∀ i, (0 ≤ i < Z.of_nat k)%Z → h !! rs i = Some (placed i g (o i))) ∧
  (∀ i, (Z.of_nat k ≤ i < 4)%Z → h !! rs i = Some (o i)) ∧
  (∀ r, r ≠ g → (∀ i, (0 ≤ i < 4)%Z → r ≠ rs i) → h !! r = h0 !! r).

(** Every object of [h] is still there in [h'], at the height it had. *)
Definition y_kept (h h' : gmap Ref Object3D) : Prop :=
  ∀ r o, h !! r = Some o →
    ∃ o', h' !! r = Some o' ∧ Vector3.y (position o') = Vector3.y (position o).

(** The store after the first [k] of the children [cs] were turned by [a]. *)
Definition turned (a : R) (cs : list Ref) (k : nat) (h h' : gmap Ref Object3D) : Prop :=
  ∀ r, h' !! r =
    (if decide (r ∈ take k cs) then with_rotation (Euler.add_y a) <$> h !! r else h !! r).

(** A page before startup: nothing bound, an empty store, a window of
    800 by 600 with a viewport element, an entropy source stuck at 0. *)
Definition blank_page : World :=
  {| clock := None; composer := None; camera := None; objects := None;
     particles := None; id := 0; heap := ∅; entropy := λ _, 0%R; draws := 0;
     ticks := λ _, 0%R; innerWidth := 800; innerHeight := 600; viewport := true;
     now := 0; timers := []; next_handle := 1; calls := [] |}.

(** Four parsed models at addresses 0..3, registered under their keys. *)
Definition four_models : gmap Ref Object3D :=
  <[0 := new_Object3D Model]> (<[1 := new_Object3D Model]>
    (<[2 := new_Object3D Model]> (<[3 := new_Object3D Model]> ∅))).

Definition four_assets : gmap string Ref :=
  <["object0" := 0]> (<["object1" := 1]> (<["object2" := 2]> (<["object3" := 3]> ∅))).

Definition loaded_page : World := set_heap four_models blank_page.

(** A running scene: the four models on a ring at address 4, an empty
    particle group at 5, a camera at 6. *)
Definition running_page : World :=
  {| clock := Some {| queries := 0 |};
     composer := Some {| renderer := {| antialias := false; alpha := true;
                                        shadowMapEnabled := false; canvasSize := (800, 600)%Z;
                                        clearColor := 0xf4f4f4 |};
                         passes := [] |};
     camera := Some 6; objects := Some 4; particles := Some 5; id := 0;
     heap := <[4 := group_of [0; 1; 2; 3]]> (<[5 := group_of []]>
               (<[6 := new_Object3D (PerspectiveCamera 45 (800 / 600) 0.1 1000)]>
                  four_models));
     entropy := λ _, 0%R; draws := 0; ticks := λ _, 0.016%R;
     innerWidth := 800; innerHeight := 600; viewport := true;
     now := 0; timers := []; next_handle := 1; calls := [] |}.

(** The times at which the queued [handleResize] was run. *)
Definition handling_calls (w : World) : list Z :=
  omap (λ c, match c with TimerFired t => Some t | _ => None end) (calls w).

(** A burst: every event comes less than [gap] after the one before. *)
Fixpoint chained (gap : Z) (evs : list (Z * (Z * Z))) : Prop :=
  match evs with
  | e1 :: (e2 :: _) as evs' => (e1.1 ≤ e2.1 < e1.1 + gap)%Z ∧ chained gap evs'
  | _ => True
  end.

(** The dimensions carried by the last event of [d0 :: evs]. *)
Definition last_dims (d0 : Z * Z) (evs : list (Z * (Z * Z))) : Z * Z :=
  foldl (λ _ e, e.2) d0 evs.

(** [onResize] has a call to [handleResize] queued under handle [n], due
    at [t], and the window is [d] wide and high. *)
Definition pending (w0 : World) (n : positive) (t : Z) (d : Z * Z) (w : World) : Prop :=
  id w = Z.pos n ∧
  timers w = [{| handle := n; due := t; arg := {| target := window |} |}] ∧
  (now w ≤ t)%Z ∧ innerWidth w = d.1 ∧ innerHeight w = d.2 ∧
  composer w = composer w0 ∧ camera w = camera w0 ∧ heap w = heap w0 ∧
  calls w = calls w0.

(** Three resize events 50 ms apart. *)
Definition slow_burst : list (Z * (Z * Z)) :=
  [(0, (800, 600)); (50, (810, 600)); (100, (820, 600))]%Z.

(** What a loader callback does to the loading state, and what it prints. *)
Definition settle (ev : LoaderEvent) (l : Loading) : Loading :=
  match ev with
  | Loaded i obj => assets_set ("object" +:+ pretty i) obj l
  | Progress _ loaded total => if (loaded =? total)%Z then resolve l else l
  | Failed url => reject (LoadError url) l
  end.

Definition settle_all (evs : list LoaderEvent) (l : Loading) : Loading :=
  foldl (λ l ev, settle ev l) l evs.

Definition console_of (evs : list LoaderEvent) : list Call :=
  omap (λ ev, match ev with
              | Loaded i _ => Some (ConsoleLog ("Loaded object " +:+ pretty i))
              | _ => None
              end) evs.

(** What [main] has done by the time it returns to the event loop. *)
Definition startup_calls : list Call :=
  [RemoveEventListener "load"; LoadRequest "models/object0.obj";
   LoadRequest "models/object1.obj"; LoadRequest "models/object2.obj";
   LoadRequest "models/object3.obj"].

Definition loading0 : Loading := {| assets := ∅; promise := Pending |}.

Definition model_url (i : Z) : string := "models/object" +:+ pretty i +:+ ".obj".

(** An execution in which every request succeeds: the requests complete
    in the order [order]; each completion delivers the parsed model to the
    callback of its request and then reports progress, the count of loaded
    items going up by one, out of the 4 started. *)
Fixpoint completions (k : Z) (order : list Z) (objs : Z → Ref) : list LoaderEvent :=
  match order with
  | [] => []
  | i :: order' =>
      Loaded i (objs i) :: Progress (model_url i) (k + 1) 4 ::
      completions (k + 1) order' objs
  end.

(** How one request ends: with the parsed model, or in an error. *)
Inductive Outcome : Type :=
| Succeeds (obj : Ref)
| Fails.

(** The callbacks that three.js makes as the requests [rs] end one after
    another, [k] items having ended before.  three.js is not part of this
    program; this is the order in which its file loader and its loading
    manager call back.  The loop of [load] starts the four items at once,
    so the total is 4 throughout.  When a request succeeds, the model goes
    to the callback of the request and the manager then ends the item: it
    counts it and reports progress.  When a request fails, the manager ends
    the item all the same, counting it and reporting progress, and only
    then reports the error. *)
Fixpoint settling (k : Z) (rs : list (Z * Outcome)) : list LoaderEvent :=
  match rs with
  | [] => []
  | (i, Succeeds obj) :: rs' =>
      Loaded i obj :: Progress (model_url i) (k + 1) 4 :: settling (k + 1) rs'
  | (i, Fails) :: rs' =>
      Progress (model_url i) (k + 1) 4 :: Failed (model_url i) :: settling (k + 1) rs'
  end.

(** The requests [order] succeed in this order, request [i] with the model
    [objs i]. *)
Definition succeed (objs : Z → Ref) (order : list Z) : list (Z * Outcome) :=
  (λ i, (i, Succeeds (objs i))) <$> order.

(** A page without the viewport element, the four models parsed. *)
Definition bare_page : World :=
  {| clock := None; composer := None; camera := None; objects := None;
     particles := None; id := 0; heap := four_models; entropy := λ _, 0%R; draws := 0;
     ticks := λ _, 0%R; innerWidth := 800; innerHeight := 600; viewport := false;
     now := 0; timers := []; next_handle := 1; calls := [] |}.

(** The calls that [initialize] has logged when it stops early. *)
Definition initialize_stopped (cs : list Call) : Prop :=
  cs = [] ∨ cs = [AppendChild] ∨ cs = [AppendChild; ControlsLookAt].

Definition console_error (e : Error) (w : World) : World := log [ConsoleError e] w.

(** The world in which the chain leaves things when the promise is
    fulfilled in world [w] with the assets [a]. *)
Definition after_chain (a : gmap string Ref) (w : World) : World :=
  match initialize a w with
  | (Throw e, w1) => console_error e w1
  | (Normal _, w1) =>
      match render None w1 with
      | (Throw e, w2) => console_error e w2
      | (Normal _, w2) => w2
      end
  end.

(** The scene that [initialize] leaves behind when it is given the world
    [w] and the assets [rs 0 .. rs 3], which were [o 0 .. o 3]: the world
    [w'], with the scene at [s], the cloud at [p] with the particles [ms],
    the ring at [g], the camera at [cam] and the two lights. *)
Definition scene_built (rs : Z → Ref) (o : Z → Object3D) (w w' : World)
    (s p g cam spot hemi : Ref) (ms : list Ref) : Prop :=
  let scene0 := new_Object3D (Scene 0xf4f4f4 0.005) in
  let camera0 :=
    with_position (λ v, Vector3.set v 0 10 0)
      (new_Object3D (PerspectiveCamera 45 (IZR (innerWidth w) / IZR (innerHeight w))
                       0.1 1000)) in
  let spot0 :=
    with_position (λ v, Vector3.set v 0 200 0) (new_Object3D (SpotLight 0xffffff 0.8)) in
  let hemi0 := new_Object3D (HemisphereLight 0xff0000 0x340000 0.5) in
  w' = {| clock := Some {| queries := 0 |};
          composer :=
            Some {| renderer := {| antialias := false; alpha := true;
                                   shadowMapEnabled := false;
                                   canvasSize := (innerWidth w, innerHeight w);
                                   clearColor := 0xf4f4f4 |};
                    passes := [RenderPass s cam; FilmPass filmOptions true] |};
          camera := Some cam; objects := Some g; particles := Some p;
          id := id w; heap := heap w'; entropy := entropy w;
          draws := draws w + 6 * Z.to_nat 2000; ticks := ticks w;
          innerWidth := innerWidth w; innerHeight := innerHeight w;
          viewport := viewport w; now := now w; timers := timers w;
          next_handle := next_handle w;
          calls := calls w ++ [AppendChild; ControlsLookAt; AddEventListener "resize"] |} ∧
  NoDup [s; p; g; cam; spot; hemi] ∧
  (∀ r, r ∈ [s; p; g; cam; spot; hemi] ++ ms → heap w !! r = None) ∧
  heap w' !! s = Some (with_children (λ _, [p; g; hemi; spot]) scene0) ∧
  heap w' !! p = Some (with_parent (Some s) (group_of ms)) ∧
  length ms = Z.to_nat 2000 ∧ NoDup ms ∧
  (∀ j m, ms !! j = Some m →
     heap w' !! m = Some (particle (entropy w) (draws w + 6 * j) p)) ∧
  heap w' !! g =
    Some (with_parent (Some s) (group_of [rs 0%Z; rs 1%Z; rs 2%Z; rs 3%Z])) ∧
  (∀ i, (0 ≤ i < 4)%Z → heap w' !! rs i = Some (placed i g (o i))) ∧
  heap w' !! cam = Some camera0 ∧
  heap w' !! spot = Some (with_parent (Some s) spot0) ∧
  heap w' !! hemi = Some (with_parent (Some s) hemi0) ∧
  (∀ r, is_Some (heap w !! r) → (∀ i, (0 ≤ i < 4)%Z → r ≠ rs i) →
     heap w' !! r = heap w !! r).

(** Times that are at least [gap] apart, in increasing order. *)
Fixpoint spaced (gap : Z) (ts : list Z) : Prop :=
  match ts with
  | t1 :: (t2 :: _) as ts' => (t1 + gap ≤ t2)%Z ∧ spaced gap ts'
  | _ => True
  end.

Definition timer_of (n : positive) (d : Z) : Timer :=
  {| handle := n; due := d; arg := {| target := window |} |}.

(** What [handleResize] has written so far, given the composer [c0] and the
    store of [w0] it started from: nothing, or some size and its ratio. *)
Definition written (c0 : EffectComposer) (cam : Ref) (w0 w : World) : Prop :=
  (composer w = Some c0 ∧ heap w = heap w0) ∨
  ∃ a b, composer w = Some (setSize a b c0) ∧
         heap w = alter (with_aspect (IZR a / IZR b)) cam (heap w0).

(** The calls logged when [handleResize] ran at the times [ts] and
    completed each time: the timer firing, then the projection update. *)
Definition handled (ts : list Z) : list Call :=
  flat_map (λ t, [TimerFired t; UpdateProjectionMatrix]) ts.

(** The composer and the camera agree with the window as it is. *)
Definition synced (c0 : EffectComposer) (cam : Ref) (w0 w : World) : Prop :=
  composer w = Some (setSize (innerWidth w) (innerHeight w) c0) ∧
  heap w = alter (with_aspect (IZR (innerWidth w) / IZR (innerHeight w))) cam (heap w0).

(** One call is queued; it is due at most 66 ms from now and at least 66 ms
    after every call made so far. *)
Definition is_pending (w : World) : Prop :=
  ∃ n d, id w = Z.pos n ∧ timers w = [timer_of n d] ∧ (d ≤ now w + 66)%Z ∧
         Forall (λ t, (t + 66 ≤ d)%Z) (handling_calls w).

(** The state of the resize handler after [k] resize events, started idle
    in [w0] with the composer [c0] and the camera [cam]. *)
Definition throttled (c0 : EffectComposer) (cam : Ref) (w0 : World) (k : nat)
    (w : World) : Prop :=
  camera w = Some cam ∧ written c0 cam w0 w ∧
  spaced 66 (handling_calls w) ∧ Forall (λ t, (t ≤ now w)%Z) (handling_calls w) ∧
  length (handling_calls w) + length (timers w) ≤ length (handling_calls w0) + k ∧
  ((id w = 0%Z ∧ timers w = [] ∧ (k = 0 ∨ synced c0 cam w0 w)) ∨ is_pending w).

(** The host runs the frames that [render] requests, one after another. *)
Fixpoint frames (n : nat) : M unit :=
  match n with
  | O => ret tt
  | S n' => render None;; frames n'
  end.

(** What the clock reports in total over [n] queries, from query [q] on. *)
Fixpoint elapsed (t : nat → R) (q n : nat) : R :=
  match n with
  | O => 0
  | S n' => t q + elapsed t (S q) n'
  end.

(** The angle by which [render] turns the object at [r] when the clock
    reports [d]: ring members by [d * 0.5], the particle group by
    [d * 0.01], nothing else. *)
Definition spin (cs : list Ref) (p : Ref) (d : R) (r : Ref) : R :=
  if decide (r ∈ cs) then (d * 0.5)%R else if decide (r = p) then (d * 0.01)%R else 0%R.

(** The objects delivered for request [i], in the order of delivery. *)
Definition deliveries (i : Z) (evs : list LoaderEvent) : list Ref :=
  omap (λ ev, match ev with
              | Loaded j obj => if decide (j = i) then Some obj else None
              | _ => None
              end) evs.

(** * Facts *)

(** ** Rules for statements *)

Lemma wp_ret {A} (a : A) Q E w : Q a w → wp (ret a) Q E w.
Proof. done. Qed.

Lemma wp_throw {A} e (Q : A → World → Prop) E w : E e w → wp (throw e) Q E w.
Proof. done. Qed.

Lemma wp_bind {A B} (m : M A) (k : A → M B) Q E w :
  wp m (λ a, wp (k a) Q E) E w → wp (bind m k) Q E w.
Proof. unfold wp, bind. by destruct (m w) as [[a|e] w']. Qed.

Lemma wp_mono {A} (m : M A) (Q Q' : A → World → Prop) (E E' : Error → World → Prop) w :
  wp m Q E w → (∀ a w', Q a w' → Q' a w') → (∀ e w', E e w' → E' e w') → wp m Q' E' w.
Proof. unfold wp. destruct (m w) as [[a|e] w']; eauto. Qed.

Lemma wp_get {A} (f : World → A) Q E w : Q (f w) w → wp (get f) Q E w.
Proof. done. Qed.

Lemma wp_modify f Q E w : Q tt (f w) → wp (modify f) Q E w.
Proof. done. Qed.

Lemma wp_call c Q E w : Q tt (log [c] w) → wp (call c) Q E w.
Proof. done. Qed.

Lemma wp_defined {A} what (v : option A) Q E w :
  match v with Some a => Q a w | None => E (TypeError what) w end →
  wp (defined what v) Q E w.
Proof. by destruct v. Qed.

Lemma wp_alloc o Q E w :
  Q (fresh (dom (heap w))) (set_heap (<[fresh (dom (heap w)) := o]> (heap w)) w) →
  wp (alloc o) Q E w.
Proof. done. Qed.

Lemma wp_alloc_fresh o Q E w :
  (∀ r, heap w !! r = None → Q r (set_heap (<[r := o]> (heap w)) w)) →
  wp (alloc o) Q E w.
Proof. intros H. apply wp_alloc, H, not_elem_of_dom, is_fresh. Qed.

Lemma wp_update r f Q E w :
  Q tt (set_heap (alter f r (heap w)) w) → wp (update r f) Q E w.
Proof. done. Qed.

Lemma wp_deref r Q E w :
  match heap w !! r with Some o => Q o w | None => E (TypeError "object") w end →
  wp (deref r) Q E w.
Proof. unfold deref. intros H. apply wp_bind, wp_get. by apply wp_defined. Qed.

Lemma wp_normal {A} (m : M A) Q w :
  wp m Q never w → ∃ a w', m w = (Normal a, w') ∧ Q a w'.
Proof. unfold wp. destruct (m w) as [[a|e] w']; [eauto | done]. Qed.

Lemma wp_for_from {S} (I : nat → S → World → Prop) fuel :
  ∀ i acc (body : Z → S → M S) Q E w,
  I 0%nat acc w →
  (∀ k acc w, k < fuel → I k acc w → wp (body (i + Z.of_nat k)%Z acc) (I (Datatypes.S k)) E w) →
  (∀ acc w, I fuel acc w → Q acc w) →
  wp (for_from fuel i acc body) Q E w.
Proof.
  revert I. induction fuel as [|fuel IH]; intros I i acc body Q E w H0 Hstep Hend.
  - apply wp_ret. by apply Hend.
  - cbn [for_from]. apply wp_bind.
    eapply wp_mono; [| |by eauto].
    + specialize (Hstep 0%nat acc w). rewrite Z.add_0_r in Hstep. apply Hstep; [lia | done].
    + intros acc' w' H1. cbv beta in H1.
      apply (IH (λ k, I (Datatypes.S k))); [done | | done].
      intros k acc'' w'' Hk HI.
      replace (i + 1 + Z.of_nat k)%Z with (i + Z.of_nat (Datatypes.S k))%Z by lia.
      apply Hstep; [lia | done].
Qed.

Lemma wp_Math_random Q E w :
  Q (entropy w (draws w)) (set_draws (S (draws w)) w) → wp Math_random Q E w.
Proof. done. Qed.

Lemma wp_random min max Q E w :
  Q (entropy w (draws w) * (max - min) + min)%R (set_draws (S (draws w)) w) →
  wp (random min max) Q E w.
Proof. done. Qed.

Ltac world_simpl :=
  cbn [clock composer camera objects particles id heap entropy draws ticks
       innerWidth innerHeight viewport now timers next_handle calls
       set_clock set_composer set_camera set_objects set_particles set_id
       set_heap set_draws set_window set_now set_timers set_calls log].

Tactic Notation "world_simpl" "in" hyp(H) :=
  cbn [clock composer camera objects particles id heap entropy draws ticks
       innerWidth innerHeight viewport now timers next_handle calls
       set_clock set_composer set_camera set_objects set_particles set_id
       set_heap set_draws set_window set_now set_timers set_calls log] in H.

Ltac wp_step :=
  lazymatch goal with
  | |- wp (bind _ _) _ _ _ => apply wp_bind
  | |- wp (ret _) _ _ _ => apply wp_ret
  | |- wp (get _) _ _ _ => apply wp_get
  | |- wp (modify _) _ _ _ => apply wp_modify
  | |- wp (call _) _ _ _ => apply wp_call
  | |- wp (alloc _) _ _ _ =>
      let r := fresh "r" in let H := fresh "Hr" in
      apply wp_alloc_fresh; intros r H; world_simpl in H
  | |- wp (update _ _) _ _ _ => apply wp_update
  | |- wp Math_random _ _ _ => apply wp_Math_random
  | |- wp (random _ _) _ _ _ => apply wp_random
  end;
  cbv beta; world_simpl.

Ltac wp_steps := repeat wp_step.

(** ** The object store *)

Lemma fresh_lookup (h : gmap nat Object3D) : h !! fresh (dom h) = None.
Proof. apply not_elem_of_dom, is_fresh. Qed.

(** Adding an object that has no parent to another object. *)
Lemma wp_add_orphan g c o Q E w :
  g ≠ c → heap w !! c = Some o → parent o = None →
  Q tt (set_heap (alter (with_children (λ cs, cs ++ [c])) g
                   (alter (with_parent (Some g)) c (heap w))) w) →
  wp (add g c) Q E w.
Proof.
  intros Hne Hc Hp HQ. unfold add. rewrite decide_False by done.
  apply wp_bind, wp_deref. rewrite Hc, Hp. by wp_steps.
Qed.

(** ** [createParticleCloud] *)

Lemma cloud_store_step w g ms h :
  g ∉ dom (heap w) → cloud_store w g ms h →
  let m := fresh (dom h) in
  cloud_store w g (ms ++ [m])
    (alter (with_children (λ cs, cs ++ [m])) g
       (<[m := particle (entropy w) (draws w + 6 * length ms) g]> h)).
Proof.
  intros Hg (Hgrp & Hnd & Hms & Hframe) m.
  assert (Hmg : m ≠ g).
  { intros E. pose proof (fresh_lookup h) as Hf. fold m in Hf. congruence. }
  assert (Hmw : m ∉ dom (heap w)).
  { intros Hin. pose proof (fresh_lookup h) as Hf. fold m in Hf.
    rewrite (Hframe _ Hin) in Hf. by apply not_elem_of_dom in Hf. }
  split; [|split; [|split]].
  - rewrite lookup_alter_eq, lookup_insert_ne, Hgrp by done. done.
  - apply NoDup_app. split; [done|]. split; [|apply NoDup_singleton].
    intros r Hr ->%list_elem_of_singleton.
    apply list_elem_of_lookup in Hr as [j Hj].
    destruct (Hms _ _ Hj) as (_ & _ & H3).
    pose proof (fresh_lookup h) as Hf. fold m in Hf. congruence.
  - intros j r Hj. apply lookup_app_Some in Hj as [Hj|[Hlen Hj]].
    + destruct (Hms _ _ Hj) as (H1 & H2 & H3). split; [done|]. split; [done|].
      rewrite lookup_alter_ne by done. rewrite lookup_insert_ne; [done|].
      intros <-. pose proof (fresh_lookup h) as Hf. fold m in Hf. congruence.
    + apply list_lookup_singleton_Some in Hj as [Hj <-].
      split; [done|]. split; [done|].
      rewrite lookup_alter_ne, lookup_insert_eq by done.
      do 3 f_equal. lia.
  - intros r Hr. rewrite lookup_alter_ne by (intros <-; done).
    rewrite lookup_insert_ne by (intros <-; done). by apply Hframe.
Qed.

Lemma wp_createParticleCloud n Q E w :
  (∀ h ms,
     let g := fresh (dom (heap w)) in
     cloud_store w g ms h → length ms = Z.to_nat n →
     Q g (set_heap h (set_draws (draws w + 6 * Z.to_nat n) w))) →
  wp (createParticleCloud n) Q E w.
Proof.
  intros HQ. unfold createParticleCloud. wp_step. apply wp_alloc. world_simpl.
  set (g := fresh (dom (heap w))) in *.
  assert (Hg : g ∉ dom (heap w)) by apply is_fresh.
  wp_step. unfold for_. rewrite Z.sub_0_r.
  apply (wp_for_from (λ k _ w', ∃ h ms,
    w' = set_heap h (set_draws (draws w + 6 * k) w) ∧
    cloud_store w g ms h ∧ length ms = k)).
  - exists (<[g := new_Object3D Group]> (heap w)), [].
    split; [|split; [|done]].
    + rewrite Nat.mul_0_r, Nat.add_0_r. done.
    + split; [|split; [|split]].
      * by rewrite lookup_insert_eq.
      * apply NoDup_nil_2.
      * intros j m Hj. by rewrite lookup_nil in Hj.
      * intros r Hr. rewrite lookup_insert_ne; [done|]. by intros <-.
  - intros k [] w' Hk (h & ms & -> & Hst & Hlen).
    wp_step. apply wp_alloc. wp_steps.
    set (m := fresh (dom h)).
    destruct (Hst) as (Hgrp & Hnd & Hms & Hframe).
    assert (Hmg : g ≠ m).
    { intros E'. pose proof (fresh_lookup h) as Hf. fold m in Hf. congruence. }
    eapply wp_add_orphan; [done|..].
    + cbn [heap set_heap]. rewrite !lookup_alter_eq, lookup_insert_eq. done.
    + done.
    + wp_steps.
      eexists _, (ms ++ [m]). split; [|split].
      * cbn [heap set_heap set_draws draws].
        replace (draws w + 6 * S k)
          with (S (S (S (S (S (S (draws w + 6 * k))))))) by lia.
        reflexivity.
      * subst k. rewrite !alter_insert_eq.
        exact (cloud_store_step w g ms h Hg Hst).
      * rewrite length_app. simpl. lia.
  - intros [] w' (h & ms & -> & Hst & Hlen). wp_steps. by apply (HQ h ms).
Qed.

(** C3. For every [n ≥ 0], [createParticleCloud n] returns a group of exactly
    [n] (distinct) elements.  Element [i] is built from six draws of
    [Math.random] of its own, numbered [6i .. 6i+5] after those already
    made: its azimuth [a] is the first scaled to [[0, 2π)], its radial
    distance [r] the second scaled to [[120, 140)], its height the third
    scaled to [[-60, 100)]; its position is [(r cos a, y, r sin a)] and its
    three rotation angles are the last three draws scaled to [[0, π)]. *)
Theorem createParticleCloud_elements (n : Z) (w : World) :
  (0 ≤ n)%Z →
  (∀ k, (0 <= entropy w k < 1)%R) →
  ∃ g w' ms,
    createParticleCloud n w = (Normal g, w') ∧
    children <$> heap w' !! g = Some ms ∧
    Z.of_nat (length ms) = n ∧ NoDup ms ∧
    ∀ i m, ms !! i = Some m →
      let u := λ j, entropy w (draws w + 6 * i + j) in
      let a := (u 0%nat * (2 * PI))%R in
      let r := (120 + u 1%nat * 20)%R in
      let yv := (-60 + u 2%nat * 160)%R in
      (0 <= a < 2 * PI)%R ∧ (120 <= r < 140)%R ∧ (-60 <= yv <= 100)%R ∧
      (0 <= u 3%nat * PI < PI)%R ∧ (0 <= u 4%nat * PI < PI)%R ∧ (0 <= u 5%nat * PI < PI)%R ∧
      ∃ o, heap w' !! m = Some o ∧
        position o = Vector3.mk (r * cos a) yv (r * sin a) ∧
        rotation o = Euler.mk (u 3%nat * PI) (u 4%nat * PI) (u 5%nat * PI).
Proof.
  intros Hn Hu.
  destruct (wp_normal (createParticleCloud n) (λ g w', ∃ h ms,
      w' = set_heap h (set_draws (draws w + 6 * Z.to_nat n) w) ∧
      cloud_store w g ms h ∧ length ms = Z.to_nat n) w)
    as (g & w' & Hrun & h & ms & -> & (Hgrp & Hnd & Hms & _) & Hlen).
  { apply wp_createParticleCloud. intros h ms g Hst Hlen. by exists h, ms. }
  eexists g, _, ms. split; [exact Hrun|]. cbn [heap set_heap].
  split; [by rewrite Hgrp|]. split; [lia|]. split; [done|].
  intros i m Hi.
  destruct (Hms _ _ Hi) as (_ & _ & Hm).
  pose proof PI_RGT_0 as Hpi.
  assert (Hr : ∀ j, (0 <= entropy w (draws w + 6 * i + j) * PI < PI)%R).
  { intros j. pose proof (Hu (draws w + 6 * i + j)) as Hj. nra. }
  pose proof (Hu (draws w + 6 * i + 0)) as H0.
  pose proof (Hu (draws w + 6 * i + 1)) as H1.
  pose proof (Hu (draws w + 6 * i + 2)) as H2.
  split; [nra|]. split; [lra|]. split; [lra|].
  do 3 (split; [apply Hr|]).
  exists (particle (entropy w) (draws w + 6 * i) g). split; [done|].
  unfold particle. cbn [position rotation].
  replace (draws w + 6 * i + 0) with (draws w + 6 * i) by lia.
  replace (draws w + 6 * i + 1) with (S (draws w + 6 * i)) by lia.
  replace (draws w + 6 * i + 2) with (S (S (draws w + 6 * i))) by lia.
  replace (draws w + 6 * i + 3) with (S (S (S (draws w + 6 * i)))) by lia.
  replace (draws w + 6 * i + 4) with (S (S (S (S (draws w + 6 * i))))) by lia.
  replace (draws w + 6 * i + 5) with (S (S (S (S (S (draws w + 6 * i)))))) by lia.
  split; [|done].
  replace (entropy w (draws w + 6 * i) * (PI * 2 - 0) + 0)%R
    with (entropy w (draws w + 6 * i) * (2 * PI))%R by lra.
  f_equal; lra.
Qed.

Lemma createParticleCloud_elements_witness :
  ∃ g w' ms, createParticleCloud 2 blank_page = (Normal g, w') ∧
    children <$> heap w' !! g = Some ms ∧ Z.of_nat (length ms) = 2%Z.
Proof.
  destruct (createParticleCloud_elements 2 blank_page) as (g & w' & ms & H1 & H2 & H3 & _).
  - lia.
  - intros k. simpl. lra.
  - exists g, w', ms. auto.
Defined.


(** ** [initialize] *)

Lemma ring_store_step rs o g h0 k h :
  k < 4 →
  (∀ i j, (0 ≤ i < 4)%Z → (0 ≤ j < 4)%Z → rs i = rs j → i = j) →
  (∀ i, (0 ≤ i < 4)%Z → g ≠ rs i) →
  ring_store rs o g h0 k h →
  let r := rs (Z.of_nat k) in
  ring_store rs o g h0 (S k)
    (alter (with_children (λ cs, cs ++ [r])) g
       (alter (with_parent (Some g)) r
          (alter (with_position (Vector3.set_z (-100.0 * sin (IZR (Z.of_nat k) * quarter)))) r
             (alter (with_position (Vector3.set_x (-100.0 * cos (IZR (Z.of_nat k) * quarter)))) r
                h)))).
Proof.
  intros Hk Hinj Hg ((cs & Hgrp & Hlen & Hcs) & Hdone & Htodo & Hframe) r.
  assert (Hgr : g ≠ r) by (apply Hg; lia).
  assert (Hr : h !! r = Some (o (Z.of_nat k))) by (apply Htodo; lia).
  split; [|split; [|split]].
  - exists (cs ++ [r]). split; [|split].
    + rewrite lookup_alter_eq, !lookup_alter_ne, Hgrp by done. done.
    + rewrite length_app. simpl. lia.
    + intros j Hj. destruct (decide (j < k)) as [Hlt|Hge].
      * rewrite lookup_app_l by lia. by apply Hcs.
      * assert (j = k) as -> by lia.
        rewrite lookup_app_r by lia. by rewrite Hlen, Nat.sub_diag.
  - intros i Hi. destruct (decide (i = Z.of_nat k)) as [->|Hne].
    + fold r. rewrite lookup_alter_ne, !lookup_alter_eq, Hr by done. done.
    + assert (rs i ≠ r) by (intros Heq; apply Hinj in Heq; lia).
      rewrite !lookup_alter_ne by (try done; apply Hg; lia).
      apply Hdone. lia.
  - intros i Hi.
    assert (rs i ≠ r) by (intros Heq; apply Hinj in Heq; lia).
    rewrite !lookup_alter_ne by (try done; apply Hg; lia).
    apply Htodo. lia.
  - intros r' Hr'g Hr'.
    assert (r' ≠ r) by (apply Hr'; lia).
    rewrite !lookup_alter_ne by done. by apply Hframe.
Qed.

Lemma initialize_ring assets (rs : Z → nat) (o : Z → Object3D) w :
  viewport w = true →
  (∀ i, (0 ≤ i < 4)%Z → assets !! ("object" +:+ pretty i) = Some (rs i)) →
  (∀ i, (0 ≤ i < 4)%Z → heap w !! rs i = Some (o i)) →
  (∀ i, (0 ≤ i < 4)%Z → parent (o i) = None) →
  (∀ i j, (0 ≤ i < 4)%Z → (0 ≤ j < 4)%Z → rs i = rs j → i = j) →
  ∃ w' g grp,
    initialize assets w = (Normal tt, w') ∧
    objects w' = Some g ∧ heap w' !! g = Some grp ∧
    children grp = [rs 0%Z; rs 1%Z; rs 2%Z; rs 3%Z] ∧
    (∀ i, (0 ≤ i < 4)%Z → heap w' !! rs i = Some (placed i g (o i))) ∧
    ∃ p cloud,
      particles w' = Some p ∧ heap w' !! p = Some cloud ∧
      Z.of_nat (length (children cloud)) = 2000%Z ∧ (p ∉ children grp) ∧
      clock w' = Some {| queries := 0 |} ∧ is_Some (composer w') ∧
      ticks w' = ticks w ∧
      calls w' = calls w ++ [AppendChild; ControlsLookAt; AddEventListener "resize"].
Proof.
  intros Hview Hassets Hheap Hparent Hinj.
  destruct (wp_normal (initialize assets) (λ _ w', ∃ g grp,
      objects w' = Some g ∧ heap w' !! g = Some grp ∧
      children grp = [rs 0%Z; rs 1%Z; rs 2%Z; rs 3%Z] ∧
      (∀ i, (0 ≤ i < 4)%Z → heap w' !! rs i = Some (placed i g (o i))) ∧
      ∃ p cloud,
        particles w' = Some p ∧ heap w' !! p = Some cloud ∧
        Z.of_nat (length (children cloud)) = 2000%Z ∧ (p ∉ children grp) ∧
        clock w' = Some {| queries := 0 |} ∧ is_Some (composer w') ∧
        ticks w' = ticks w ∧
        calls w' = calls w ++ [AppendChild; ControlsLookAt; AddEventListener "resize"]) w)
    as ([] & w' & Hrun & g & grp & H); [|by exists w', g, grp].
  assert (Hrs : ∀ i, (0 ≤ i < 4)%Z → is_Some (heap w !! rs i)) by (intros; rewrite Hheap; eauto).
  unfold initialize. wp_steps. rename r into s, Hr into Hs.
  rewrite Hview. cbv iota. wp_steps.
  apply wp_createParticleCloud. intros h ms p (Hp & _ & _ & Hframe) Hms.
  world_simpl in Hframe.
  assert (Hfp : (<[s := new_Object3D (Scene 16053492 0.005)]> (heap w)) !! p = None)
    by apply fresh_lookup.
  clearbody p. apply lookup_insert_None in Hfp as [Hfp Hsp].
  assert (Hhs : h !! s = Some (new_Object3D (Scene 16053492 0.005))).
  { rewrite Hframe, lookup_insert_eq; [done|]. apply elem_of_dom. rewrite lookup_insert_eq. eauto. }
  assert (Hsr : ∀ i, (0 ≤ i < 4)%Z → s ≠ rs i).
  { intros i Hi Heq. rewrite Heq, Hheap in Hs; done. }
  assert (Hpr : ∀ i, (0 ≤ i < 4)%Z → p ≠ rs i).
  { intros i Hi Heq. rewrite Heq, Hheap in Hfp; done. }
  assert (Hhr : ∀ i, (0 ≤ i < 4)%Z → h !! rs i = Some (o i)).
  { intros i Hi. rewrite Hframe.
    - rewrite lookup_insert_ne by auto. auto.
    - apply elem_of_dom. rewrite lookup_insert_ne by auto. auto. }
  wp_steps.
  eapply wp_add_orphan; [done|world_simpl; exact Hp|done|]. 
  wp_steps. rename r into g, Hr into Hg.
  rewrite !lookup_alter_None in Hg.
  assert (Hgs : g ≠ s) by congruence.
  assert (Hgr : ∀ i, (0 ≤ i < 4)%Z → g ≠ rs i).
  { intros i Hi Heq. rewrite Heq, Hhr in Hg; done. }
  match goal with |- wp _ _ _ ?w0 => set (w3 := w0) end.
  set (h3 := <[g:=new_Object3D Group]>
               (alter (with_children (λ cs : list nat, cs ++ [p])) s
                  (alter (with_parent (Some s)) p h))) in *.
  unfold for_. change (Z.to_nat (4 - 0)) with 4.
  apply (wp_for_from (λ k angle w', angle = (IZR (Z.of_nat k) * quarter)%R ∧
    ∃ h', w' = set_heap h' w3 ∧ ring_store rs o g h3 k h')).
  - split; [change (Z.of_nat 0) with 0%Z; lra|]. exists h3. split; [done|].
    split; [|split; [|split]].
    + exists []. split; [|split; [done|lia]]. unfold h3. by rewrite lookup_insert_eq.
    + lia.
    + intros i Hi. unfold h3.
      rewrite lookup_insert_ne, !lookup_alter_ne by auto. auto.
    + done.
  - intros k angle w' Hk (-> & h' & -> & Hst).
    rewrite Z.add_0_l.
    destruct Hst as (Hcs & Hdone & Htodo & Hfr) eqn:Est. clear Est.
    wp_step. apply wp_defined. rewrite Hassets by lia.
    wp_steps.
    eapply wp_add_orphan; [apply Hgr; lia|..].
    + world_simpl. rewrite !lookup_alter_eq, Htodo by lia. done.
    + simpl. apply Hparent. lia.
    + wp_steps. split.
      * rewrite Nat2Z.inj_succ, succ_IZR. unfold quarter. lra.
      * eexists. split; [reflexivity|].
        apply (ring_store_step rs o g h3 k h'); auto.
  - intros angle w' (_ & h' & -> & (Hcs & Hdone & _ & Hfr)).
    destruct Hcs as (cs & Hgrp & Hlen & Hcs).
    assert (Hh's : is_Some (h' !! s)).
    { rewrite Hfr by auto. unfold h3.
      rewrite lookup_insert_ne, lookup_alter_eq, lookup_alter_ne, Hhs by auto. eauto. }
    wp_step. eapply wp_add_orphan; [auto|world_simpl; exact Hgrp|done|].
    cbv beta. wp_step. wp_step. rename r into cam, Hr into Hcam.
    rewrite !lookup_alter_None in Hcam.
    do 6 wp_step. rename r into spot, Hr into Hspot.
    rewrite lookup_insert_None, !lookup_alter_None in Hspot. destruct Hspot as [Hspot Hcs'].
    do 2 wp_step. rename r into hemi, Hr into Hhemi.
    rewrite !lookup_insert_None, !lookup_alter_None in Hhemi.
    destruct Hhemi as [[Hhemi Hch] Hsh].
    assert (∀ r, is_Some (h' !! r) → r ≠ cam ∧ r ≠ spot ∧ r ≠ hemi) as Hne.
    { intros r [x Hx]. repeat split; congruence. }
    destruct (Hne s Hh's) as (Hs1 & Hs2 & Hs3).
    wp_step. eapply wp_add_orphan; [done|world_simpl; apply lookup_insert_eq|done|].
    cbv beta. wp_step. eapply wp_add_orphan; [done|world_simpl|..].
    { rewrite !lookup_alter_ne, lookup_insert_ne, lookup_insert_eq by done. done. }
    { done. }
    cbv beta. wp_steps. apply wp_defined. wp_steps.
    exists g. eexists. split; [done|].
    destruct (Hne g ltac:(eauto)) as (Hg1 & Hg2 & Hg3).
    assert (Hpg : p ≠ g) by congruence.
    assert (Hh'p : h' !! p = Some (with_parent (Some s) (group_of ms))).
    { rewrite Hfr by auto. unfold h3.
      rewrite lookup_insert_ne, lookup_alter_ne, lookup_alter_eq, Hp by auto. done. }
    destruct (Hne p ltac:(eauto)) as (Hp1 & Hp2 & Hp3).
    world_simpl. split; [|split; [|split]].
    + rewrite !lookup_alter_ne, !lookup_insert_ne, lookup_alter_ne, lookup_alter_eq, Hgrp by done.
      done.
    + simpl. destruct cs as [|c0 [|c1 [|c2 [|c3 [|]]]]]; try done.
      pose proof (Hcs 0 ltac:(lia)) as E0. pose proof (Hcs 1 ltac:(lia)) as E1.
      pose proof (Hcs 2 ltac:(lia)) as E2. pose proof (Hcs 3 ltac:(lia)) as E3.
      change (Z.of_nat 0) with 0%Z in E0. change (Z.of_nat 1) with 1%Z in E1.
      change (Z.of_nat 2) with 2%Z in E2. change (Z.of_nat 3) with 3%Z in E3.
      cbn in E0, E1, E2, E3. cbn. congruence.
    + intros i Hi. specialize (Hdone i ltac:(lia)).
      destruct (Hne (rs i) ltac:(eauto)) as (Hr1 & Hr2 & Hr3).
      rewrite !lookup_alter_ne, !lookup_insert_ne, !lookup_alter_ne by auto.
      done.
    + eexists p, _. split; [done|]. split.
        { rewrite !lookup_alter_ne, !lookup_insert_ne, !lookup_alter_ne, Hh'p by auto. done. }
        split.
        { change (Z.of_nat (length ms) = 2000%Z). rewrite Hms. by rewrite Z2Nat.id. }
        split.
        { cbn. intros Hin.
          destruct cs as [|c0 [|c1 [|c2 [|c3 [|]]]]]; try done.
          apply list_elem_of_lookup in Hin as [j Hj].
          assert (j < 4) as Hj4 by (apply lookup_lt_Some in Hj; cbn in Hj; lia).
          rewrite (Hcs j Hj4) in Hj. injection Hj as Hj. apply (Hpr (Z.of_nat j)); [lia|done]. }
        unfold w3. world_simpl. split; [done|]. split; [eauto|]. split; [done|].
        by rewrite <- !app_assoc.
Qed.

(** C1, with the sign the code has.  Given four distinct, parentless models
    under the keys ["object0"] .. ["object3"], [initialize] makes them the
    ring's members in key order and puts member [i] at
    [(x, z) = (-100 cos(i π/2), -100 sin(i π/2))]: on the circle of radius
    100, a quarter turn apart, starting at angle [π]. *)
Theorem initialize_places_ring assets (rs : Z → nat) (o : Z → Object3D) w :
  viewport w = true →
  (∀ i, (0 ≤ i < 4)%Z → assets !! ("object" +:+ pretty i) = Some (rs i)) →
  (∀ i, (0 ≤ i < 4)%Z → heap w !! rs i = Some (o i)) →
  (∀ i, (0 ≤ i < 4)%Z → parent (o i) = None) →
  (∀ i j, (0 ≤ i < 4)%Z → (0 ≤ j < 4)%Z → rs i = rs j → i = j) →
  ∃ w' g grp,
    initialize assets w = (Normal tt, w') ∧
    objects w' = Some g ∧ heap w' !! g = Some grp ∧
    children grp = [rs 0%Z; rs 1%Z; rs 2%Z; rs 3%Z] ∧
    ∀ i, (0 ≤ i < 4)%Z →
      ∃ o', heap w' !! rs i = Some o' ∧
        Vector3.x (position o') = (-100 * cos (IZR i * (PI / 2)))%R ∧
        Vector3.z (position o') = (-100 * sin (IZR i * (PI / 2)))%R ∧
        Vector3.x (position o') = (100 * cos (PI + IZR i * (2 * PI / 4)))%R ∧
        Vector3.z (position o') = (100 * sin (PI + IZR i * (2 * PI / 4)))%R.
Proof.
  intros Hview Hassets Hheap Hparent Hinj.
  destruct (initialize_ring assets rs o w) as (w' & g & grp & Hrun & Hg & Hgrp & Hcs & Hpos & _);
    try done.
  exists w', g, grp. repeat (split; [done|]).
  intros i Hi. exists (placed i g (o i)). split; [by apply Hpos|].
  cbn. unfold quarter.
  replace (IZR i * (PI * 2.0 / 4.0))%R with (IZR i * (PI / 2))%R by lra.
  replace (PI + IZR i * (2 * PI / 4))%R with (IZR i * (PI / 2) + PI)%R by lra.
  rewrite neg_cos, neg_sin. repeat split; lra.
Qed.

Lemma four_assets_lookup i :
  (0 ≤ i < 4)%Z → four_assets !! ("object" +:+ pretty i) = Some (Z.to_nat i).
Proof.
  intros Hi.
  assert (i = 0 ∨ i = 1 ∨ i = 2 ∨ i = 3)%Z as [->|[->|[->| ->]]] by lia; reflexivity.
Qed.

Lemma four_models_lookup i :
  (0 ≤ i < 4)%Z → four_models !! Z.to_nat i = Some (new_Object3D Model).
Proof.
  intros Hi.
  assert (i = 0 ∨ i = 1 ∨ i = 2 ∨ i = 3)%Z as [->|[->|[->| ->]]] by lia; reflexivity.
Qed.

Lemma initialize_places_ring_witness :
  ∃ w' g grp,
    initialize four_assets loaded_page = (Normal tt, w') ∧
    objects w' = Some g ∧ heap w' !! g = Some grp ∧
    children grp = [0; 1; 2; 3].
Proof.
  destruct (initialize_places_ring four_assets Z.to_nat (λ _, new_Object3D Model) loaded_page)
    as (w' & g & grp & H1 & H2 & H3 & H4 & _).
  - reflexivity.
  - apply four_assets_lookup.
  - apply four_models_lookup.
  - reflexivity.
  - intros i j Hi Hj Heq. lia.
  - exists w', g, grp. auto.
Defined.

(** C1 does not hold with [+100]: with four fresh models loaded, ring
    member 0 ends up at [x = -100], not at [100 cos 0 = 100]. *)
Lemma initialize_ring_not_at_angle_0 :
  ∃ w' g grp o',
    initialize four_assets loaded_page = (Normal tt, w') ∧
    objects w' = Some g ∧ heap w' !! g = Some grp ∧ children grp !! 0 = Some 0 ∧
    heap w' !! 0 = Some o' ∧
    Vector3.x (position o') ≠ (100 * cos (IZR 0 * (PI / 2)))%R.
Proof.
  destruct (initialize_ring four_assets Z.to_nat (λ _, new_Object3D Model) loaded_page)
    as (w' & g & grp & Hrun & Hg & Hgrp & Hcs & Hpos & _).
  - reflexivity.
  - apply four_assets_lookup.
  - apply four_models_lookup.
  - reflexivity.
  - intros i j Hi Hj Heq. lia.
  - exists w', g, grp, (placed 0 g (new_Object3D Model)).
    split; [done|]. split; [done|]. split; [done|]. split; [by rewrite Hcs|].
    split; [apply (Hpos 0%Z); lia|].
    cbn. rewrite !Rmult_0_l, cos_0. lra.
Qed.

(** ** Heights are never written *)

Lemma set_heap_id w : set_heap (heap w) w = w.
Proof. by destruct w. Qed.

Lemma y_kept_refl h : y_kept h h.
Proof. intros r o Hr. eauto. Qed.

Lemma y_kept_alter h0 h f r :
  (∀ o, Vector3.y (position (f o)) = Vector3.y (position o)) →
  y_kept h0 h → y_kept h0 (alter f r h).
Proof.
  intros Hf Hk r' o Hr'. destruct (Hk _ _ Hr') as (o' & Ho' & Hy).
  destruct (decide (r = r')) as [->|Hne].
  - exists (f o'). rewrite lookup_alter_eq, Ho'. split; [done|]. by rewrite Hf.
  - exists o'. by rewrite lookup_alter_ne.
Qed.

Lemma y_kept_insert h0 h r o :
  y_kept h0 h → h !! r = None → y_kept h0 (<[r := o]> h).
Proof.
  intros Hk Hr r' o0 Hr'. destruct (Hk _ _ Hr') as (o' & Ho' & Hy).
  exists o'. rewrite lookup_insert_ne by congruence. done.
Qed.

Lemma y_kept_frame h0 h h' :
  y_kept h0 h → (∀ r, r ∈ dom h → h' !! r = h !! r) → y_kept h0 h'.
Proof.
  intros Hk Hfr r o Hr. destruct (Hk _ _ Hr) as (o' & Ho' & Hy).
  exists o'. rewrite Hfr; [done|]. apply elem_of_dom. eauto.
Qed.

Ltac kept :=
  repeat first
    [ assumption
    | apply y_kept_refl
    | apply y_kept_alter; [by intros [] |]
    | apply y_kept_insert; [|assumption] ].

(** [add] moves nothing: whichever way it goes, heights are kept. *)
Lemma wp_add_kept g c h0 Q (E : Error → World → Prop) w :
  y_kept h0 (heap w) →
  (∀ h', y_kept h0 h' → Q tt (set_heap h' w)) →
  (∀ e, E e w) →
  wp (add g c) Q E w.
Proof.
  intros Hk HQ HE. unfold add. destruct (decide (g = c)) as [->|Hne].
  - apply wp_ret. rewrite <- (set_heap_id w). by apply HQ.
  - apply wp_bind, wp_deref. destruct (heap w !! c) as [o|]; [|apply HE].
    destruct (parent o) as [p|]; wp_steps; apply HQ; kept.
Qed.

(** C9. [initialize] never writes the [y] coordinate of an object that was
    in the store before it ran, an asset in particular, whether it runs to
    its end or throws on the way: the object is still there, as high as it
    was loaded. *)
Theorem initialize_keeps_height assets w r o :
  heap w !! r = Some o →
  ∃ o', heap (initialize assets w).2 !! r = Some o' ∧
        Vector3.y (position o') = Vector3.y (position o).
Proof.
  intros Hr.
  assert (wp (initialize assets) (λ _ w', y_kept (heap w) (heap w'))
             (λ _ w', y_kept (heap w) (heap w')) w) as Hwp.
  2:{ unfold wp in Hwp. destruct (initialize assets w) as [[[]|e] w']; by apply Hwp. }
  clear r o Hr. set (h0 := heap w).
  unfold initialize. wp_steps.
  destruct (viewport w); [|apply wp_throw; world_simpl; subst h0; kept].
  wp_steps. apply wp_createParticleCloud. intros h ms p (_ & _ & _ & Hframe) _.
  world_simpl in Hframe. clearbody p.
  assert (y_kept h0 h) as Hh.
  { eapply y_kept_frame; [|exact Hframe]. subst h0. kept. }
  wp_steps. apply (wp_add_kept _ _ h0); [world_simpl; done| |intros; world_simpl; done].
  intros h1 Hh1. wp_steps. unfold for_.
  apply (wp_for_from (λ _ _ w', y_kept h0 (heap w'))).
  { world_simpl. kept. }
  { intros k angle w' _ Hw'. wp_step. apply wp_defined.
    destruct (assets !! _) as [obj|]; [|done].
    wp_steps. apply (wp_add_kept _ _ h0); [world_simpl; kept| |intros; world_simpl; kept].
    intros h2 Hh2. wp_steps. done. }
  intros angle w' Hw'. wp_step.
  apply (wp_add_kept _ _ h0); [done| |done].
  intros h2 Hh2. wp_steps.
  apply (wp_add_kept _ _ h0); [world_simpl; kept| |intros; world_simpl; kept].
  intros h3 Hh3. wp_steps.
  apply (wp_add_kept _ _ h0); [world_simpl; kept| |intros; world_simpl; kept].
  intros h4 Hh4. wp_steps. apply wp_defined.
  destruct (composer w'); wp_steps; done.
Qed.

Lemma initialize_keeps_height_witness :
  ∃ o', heap (initialize four_assets loaded_page).2 !! 2 = Some o' ∧
        Vector3.y (position o') = Vector3.y (position (new_Object3D Model)).
Proof. apply (initialize_keeps_height four_assets loaded_page 2). reflexivity. Defined.

(** ** [render] *)

Lemma turned_step a cs k c h h' :
  NoDup cs → cs !! k = Some c → turned a cs k h h' →
  turned a cs (S k) h (alter (with_rotation (Euler.add_y a)) c h').
Proof.
  intros Hnd Hc Ht r. rewrite (take_S_r _ _ _ Hc).
  assert (c ∉ take k cs) as Hfresh.
  { intros Hin. apply list_elem_of_lookup in Hin as [j Hj].
    apply lookup_take_Some in Hj as [Hj Hlt].
    pose proof (NoDup_lookup _ _ _ _ Hnd Hj Hc). lia. }
  destruct (decide (r = c)) as [->|Hne].
  - rewrite lookup_alter_eq, Ht.
    rewrite decide_False by done.
    rewrite decide_True; [done|]. apply elem_of_app. right. by apply list_elem_of_singleton.
  - rewrite lookup_alter_ne, Ht by done.
    destruct (decide (r ∈ take k cs)) as [Hin|Hout].
    + rewrite decide_True; [done|]. apply elem_of_app. by left.
    + rewrite decide_False; [done|]. apply not_elem_of_app. split; [done|].
      by intros ->%list_elem_of_singleton.
Qed.

(** One frame: [render] completes normally; the ring's children are turned
    in the loop, then the particle group. *)
Lemma render_run now w c g p comp grp :
  clock w = Some c → objects w = Some g → particles w = Some p →
  composer w = Some comp → heap w !! g = Some grp → NoDup (children grp) →
  let d := ticks w (queries c) in
  ∃ h',
    render now w =
      (Normal tt,
       set_heap (alter (with_rotation (Euler.add_y (d * 0.01))) p h')
         (set_clock (Some {| queries := S (queries c) |})
            (set_calls (calls w ++ [RequestAnimationFrame; ComposerRender d]) w))) ∧
    ∀ r, h' !! r =
      (if decide (r ∈ children grp)
       then with_rotation (Euler.add_y (d * 0.5)) <$> heap w !! r else heap w !! r).
Proof.
  intros Hc Hg Hp Hcomp Hgrp Hnd d.
  destruct (wp_normal (render now) (λ _ w', ∃ h',
      w' = set_heap (alter (with_rotation (Euler.add_y (d * 0.01))) p h')
             (set_clock (Some {| queries := S (queries c) |})
                (set_calls (calls w ++ [RequestAnimationFrame; ComposerRender d]) w)) ∧
      turned (d * 0.5) (children grp) (length (children grp)) (heap w) h') w)
    as ([] & w' & Hrun & h' & -> & Ht).
  - unfold render, getDelta. wp_steps. rewrite Hc. apply wp_defined. wp_steps.
    rewrite Hg. apply wp_defined. wp_step. apply wp_deref. world_simpl. rewrite Hgrp.
    wp_step. unfold for_. rewrite Z.sub_0_r, Nat2Z.id.
    match goal with |- wp _ _ _ ?w0 => set (w1 := w0) end.
    apply (wp_for_from (λ k _ w', ∃ h',
      w' = set_heap h' w1 ∧ turned (d * 0.5) (children grp) k (heap w) h')).
    + exists (heap w). split; [done|]. intros r. rewrite take_0.
      rewrite decide_False; [done|]. apply not_elem_of_nil.
    + intros k [] w' Hk (h' & -> & Ht). rewrite Z.add_0_l, Nat2Z.id.
      destruct (lookup_lt_is_Some_2 (children grp) k Hk) as [child Hchild].
      wp_step. rewrite Hchild. apply wp_defined. wp_steps.
      eexists. split; [reflexivity|]. by apply turned_step.
    + intros [] w' (h' & -> & Ht). unfold w1. wp_steps.
      rewrite Hp. apply wp_defined. wp_steps.
      rewrite Hcomp. apply wp_defined. wp_steps.
      exists h'. split; [|done].
      unfold log, set_heap, set_clock, set_calls. world_simpl.
      rewrite <- app_assoc. reflexivity.
  - exists h'. split; [exact Hrun|]. intros r. rewrite (Ht r), firstn_all. done.
Qed.

(** C6. In a frame in which the clock reports [d], [render] completes
    normally and adds exactly [d * 0.5] to the [y] rotation of every ring
    member and exactly [d * 0.01] to that of the particle group; every
    other object of the store, and every other field of those objects, is
    left as it was, and so is the rest of the world apart from the clock's
    query count and the two logged calls (next frame requested first, the
    composer rendered last). *)
Theorem render_frame now w c g p comp grp :
  clock w = Some c → objects w = Some g → particles w = Some p →
  composer w = Some comp → heap w !! g = Some grp →
  NoDup (children grp) → p ∉ children grp →
  let d := ticks w (queries c) in
  ∃ h',
    render now w =
      (Normal tt,
       set_heap h' (set_clock (Some {| queries := S (queries c) |})
                      (set_calls (calls w ++ [RequestAnimationFrame; ComposerRender d]) w))) ∧
    (∀ r o, r ∈ children grp → heap w !! r = Some o →
       h' !! r = Some (with_rotation (Euler.add_y (d * 0.5)) o) ∧
       Euler.y (rotation (with_rotation (Euler.add_y (d * 0.5)) o))
         = (Euler.y (rotation o) + d * 0.5)%R) ∧
    (∀ o, heap w !! p = Some o →
       h' !! p = Some (with_rotation (Euler.add_y (d * 0.01)) o) ∧
       Euler.y (rotation (with_rotation (Euler.add_y (d * 0.01)) o))
         = (Euler.y (rotation o) + d * 0.01)%R) ∧
    (∀ r, r ∉ children grp → r ≠ p → h' !! r = heap w !! r).
Proof.
  intros Hc Hg Hp Hcomp Hgrp Hnd Hpc d.
  destruct (render_run now w c g p comp grp) as (h' & Hrun & Ht); try done.
  eexists. split; [exact Hrun|]. split; [|split].
  - intros r o Hr Ho. split; [|done].
    rewrite lookup_alter_ne by (by intros ->).
    by rewrite Ht, decide_True, Ho.
  - intros o Ho. split; [|done].
    by rewrite lookup_alter_eq, Ht, decide_False, Ho.
  - intros r Hr Hne. by rewrite lookup_alter_ne, Ht, decide_False.
Qed.

Lemma render_frame_witness :
  ∃ h', (render None running_page).2 =
        set_heap h' (set_clock (Some {| queries := 1 |})
          (set_calls [RequestAnimationFrame; ComposerRender 0.016] running_page)) ∧
        h' !! 5 = Some (with_rotation (Euler.add_y (0.016 * 0.01)) (group_of [])).
Proof.
  destruct (render_frame None running_page {| queries := 0 |} 4 5
              {| renderer := {| antialias := false; alpha := true;
                                shadowMapEnabled := false; canvasSize := (800, 600)%Z;
                                clearColor := 0xf4f4f4 |};
                 passes := [] |}
              (group_of [0; 1; 2; 3]))
    as (h' & Hrun & _ & Hp & _).
  - reflexivity.
  - reflexivity.
  - reflexivity.
  - reflexivity.
  - reflexivity.
  - cbn. compute_done.
  - cbn. compute_done.
  - exists h'. rewrite Hrun. split; [reflexivity|]. by apply Hp.
Defined.

(** ** The resize handler *)

Lemma wp_setTimeout delay ev Q E w :
  Q (Z.pos (next_handle w))
    (set_timers (timers w ++ [{| handle := next_handle w; due := (now w + delay)%Z;
                                 arg := ev |}])
                (Pos.succ (next_handle w)) w) →
  wp (setTimeout delay ev) Q E w.
Proof. done. Qed.

Lemma wp_fire t Q E w :
  wp (call (TimerFired (due t));; handleResize (arg t))
     (λ _, Q tt) (λ e w', Q tt (log [Uncaught e] w'))
     (set_now (Z.max (now w) (due t)) w) →
  wp (fire t) Q E w.
Proof.
  unfold wp, fire.
  by destruct ((call (TimerFired (due t));; handleResize (arg t)) _) as [[[]|e] w'].
Qed.

(** While a call is pending, a resize event only changes the window. *)
Lemma resize_while_pending w0 n t d ev w :
  pending w0 n t d w → (ev.1 < t)%Z →
  wp (resize ev) (λ _, pending w0 n t ev.2) never w.
Proof.
  intros (Hid & Htm & Hnow & Hw & Hh & Hc & Hcam & Hheap & Hcalls) Hev.
  unfold resize, advance, onResize. wp_steps. rewrite Htm.
  rewrite !filter_cons, !filter_nil. cbn [due].
  rewrite (decide_False (P := (t ≤ ev.1)%Z)) by lia.
  rewrite (decide_True (P := ¬ (t ≤ ev.1)%Z)) by lia.
  cbn [fire_all]. wp_steps. rewrite Hid. cbn [Z.eqb]. wp_steps.
  repeat split; world_simpl; try done. lia.
Qed.

Lemma dispatch_while_pending w0 n t evs : ∀ d w,
  pending w0 n t d w → Forall (λ ev, (ev.1 < t)%Z) evs →
  wp (dispatch evs) (λ _, pending w0 n t (last_dims d evs)) never w.
Proof.
  induction evs as [|ev evs IH]; intros d w Hp Hevs.
  - by apply wp_ret.
  - apply Forall_cons in Hevs as [Hev Hevs]. cbn [dispatch]. apply wp_bind.
    eapply wp_mono; [by apply (resize_while_pending w0 n t d)| |done].
    intros [] w' Hp'. cbv beta. by apply IH.
Qed.

(** C2, counted from the first event of the burst.  From an idle handler,
    a burst of resize events whose later events all arrive less than 66 ms
    after the first one causes exactly one call of [handleResize]: 66 ms
    after the first event, with the window dimensions current at that
    moment, which are those of the last event of the burst.  The later
    events are ignored: they queue nothing and do not move the call.
    Afterwards the handler is idle. *)
Theorem resize_burst_one_call w comp cam t0 d0 rest T :
  id w = 0%Z → timers w = [] → (now w ≤ t0)%Z →
  composer w = Some comp → camera w = Some cam →
  Forall (λ ev, (ev.1 < t0 + 66)%Z) rest → (t0 + 66 ≤ T)%Z →
  let d := last_dims d0 rest in
  ∃ w',
    (dispatch ((t0, d0) :: rest);; advance T) w = (Normal tt, w') ∧
    calls w' = calls w ++ [TimerFired (t0 + 66); UpdateProjectionMatrix] ∧
    composer w' = Some (setSize d.1 d.2 comp) ∧
    heap w' = alter (with_aspect (IZR d.1 / IZR d.2)) cam (heap w) ∧
    id w' = 0%Z ∧ timers w' = [].
Proof.
  intros Hid Htm Hnow Hcomp Hcam Hrest HT d.
  destruct (wp_normal (dispatch ((t0, d0) :: rest);; advance T) (λ _ w',
      calls w' = calls w ++ [TimerFired (t0 + 66); UpdateProjectionMatrix] ∧
      composer w' = Some (setSize d.1 d.2 comp) ∧
      heap w' = alter (with_aspect (IZR d.1 / IZR d.2)) cam (heap w) ∧
      id w' = 0%Z ∧ timers w' = []) w) as ([] & w' & Hrun & H); [|by exists w'].
  cbn [dispatch]. unfold resize at 1, advance at 1, onResize at 1.
  wp_steps. rewrite Htm, !filter_nil. cbn [fire_all]. wp_steps.
  rewrite Hid. cbn [Z.eqb]. wp_step. apply wp_setTimeout. world_simpl.
  wp_steps. cbn [fst snd app]. rewrite !Z.max_r by lia.
  eapply wp_mono; [apply (dispatch_while_pending w (next_handle w) (t0 + 66) rest d0)| |done].
  - repeat split; world_simpl; try done. lia.
  - done.
  - intros [] w1 (Hid1 & Htm1 & Hnow1 & Hw1 & Hh1 & Hc1 & Hcam1 & Hheap1 & Hcalls1).
    fold d in Hw1, Hh1. unfold advance. wp_steps. rewrite Htm1.
    rewrite !filter_cons, !filter_nil. cbn [due].
    rewrite (decide_True (P := (t0 + 66 ≤ T)%Z)) by lia.
    rewrite (decide_False (P := ¬ (t0 + 66 ≤ T)%Z)) by lia.
    cbn [fire_all]. wp_step. apply wp_fire. cbn [due arg].
    unfold handleResize. cbn [target target_innerWidth target_innerHeight].
    wp_steps. rewrite Hc1, Hcomp. apply wp_defined. wp_steps.
    rewrite Hcam1, Hcam. apply wp_defined. wp_steps.
    rewrite Hw1, Hh1, Hcalls1, Hheap1. rewrite <- !app_assoc. done.
Qed.

Lemma resize_burst_one_call_witness :
  ∃ w', (dispatch [(0, (800, 600)); (30, (810, 600))]%Z;; advance 100) running_page
        = (Normal tt, w') ∧
        calls w' = [TimerFired 66; UpdateProjectionMatrix] ∧
        (canvasSize <$> (renderer <$> composer w')) = Some (810, 600)%Z.
Proof.
  destruct (resize_burst_one_call running_page
              {| renderer := {| antialias := false; alpha := true;
                                shadowMapEnabled := false; canvasSize := (800, 600)%Z;
                                clearColor := 0xf4f4f4 |};
                 passes := [] |}
              6 0 (800, 600)%Z [(30, (810, 600))]%Z 100)
    as (w' & Hrun & Hcalls & Hcomp & _).
  - reflexivity.
  - reflexivity.
  - cbn. lia.
  - reflexivity.
  - reflexivity.
  - repeat constructor.
  - lia.
  - exists w'. split; [exact Hrun|]. split; [exact Hcalls|]. rewrite Hcomp. reflexivity.
Defined.

(** C2 does not hold for a burst that lasts longer than 66 ms: three
    events 50 ms apart form a burst, yet [handleResize] runs twice, first
    66 ms after the first event (34 ms before the last one) with the
    dimensions of the second event. *)
Lemma resize_slow_burst_handled_twice :
  chained 66 slow_burst ∧
  ∃ w', (dispatch slow_burst;; advance 1000) running_page = (Normal tt, w') ∧
        handling_calls w' = [66; 166]%Z ∧
        handling_calls w' ≠ [100 + 66]%Z ∧
        ∃ w1, (dispatch slow_burst) running_page = (Normal tt, w1) ∧
              handling_calls w1 = [66]%Z ∧
              (canvasSize <$> (renderer <$> composer w1)) = Some (810, 600)%Z.
Proof.
  split; [cbn; lia|].
  eexists. split; [vm_compute; reflexivity|].
  split; [vm_compute; reflexivity|]. split; [vm_compute; congruence|].
  eexists. split; [vm_compute; reflexivity|]. split; vm_compute; reflexivity.
Qed.

(** ** [load] and the promise chain *)

Lemma log_nil w : log [] w = w.
Proof. destruct w. unfold log, set_calls. cbn. by rewrite app_nil_r. Qed.

Lemma log_log a b w : log b (log a w) = log (a ++ b) w.
Proof. unfold log, set_calls. cbn. by rewrite app_assoc. Qed.

Lemma handle_event_settle ev l w :
  handle_event ev l w = (Normal (settle ev l), log (console_of [ev]) w).
Proof.
  destruct ev as [i obj|item n t|url]; cbn; rewrite ?log_nil; [done| |done].
  unfold onProgress. by destruct (n =? t)%Z.
Qed.

Lemma chain_startup a p w :
  chain (initialize a) (render None) p w =
  (Normal tt, match p with
              | Pending => w
              | Fulfilled => after_chain a w
              | Rejected e => console_error e w
              end).
Proof.
  destruct p as [| |e]; [done| |done].
  unfold chain, catch_, after_chain, bind.
  destruct (initialize a w) as [[[]|e] w1]; [|done].
  by destruct (render None w1) as [[[]|e] w2].
Qed.

(** One callback, as seen from outside: the loading state moves by
    [settle]; the chain runs if and only if this callback settled the
    promise. *)
Lemma deliver_settle ev l w :
  deliver ev l w =
  (Normal (settle ev l),
   let w1 := log (console_of [ev]) w in
   match promise l, promise (settle ev l) with
   | Pending, Fulfilled => after_chain (assets (settle ev l)) w1
   | Pending, Rejected e => console_error e w1
   | _, _ => w1
   end).
Proof.
  unfold deliver, bind. rewrite handle_event_settle.
  destruct (promise l) as [| |e]; [|done..].
  rewrite chain_startup. by destruct (promise (settle ev l)).
Qed.

Lemma settle_settled ev l : promise l ≠ Pending → promise (settle ev l) = promise l.
Proof.
  intros Hl. destruct ev as [i obj|item n t|url]; cbn; [done| |].
  - destruct (n =? t)%Z; [|done]. unfold resolve.
    destruct (promise l) eqn:E; cbn; congruence.
  - unfold reject. destruct (promise l) eqn:E; cbn; congruence.
Qed.

Lemma deliver_all_settled evs : ∀ l w,
  promise l ≠ Pending →
  deliver_all evs l w = (Normal (settle_all evs l), log (console_of evs) w) ∧
  promise (settle_all evs l) = promise l.
Proof.
  induction evs as [|ev evs IH]; intros l w Hl.
  - cbn. by rewrite log_nil.
  - cbn [deliver_all]. unfold bind. rewrite deliver_settle.
    pose proof (settle_settled ev l Hl) as Hs.
    destruct (IH (settle ev l) (log (console_of [ev]) w) ltac:(congruence)) as [Hrun Hp].
    cbv zeta. replace (match promise l with Pending => _ | _ => _ end)
      with (log (console_of [ev]) w) by (by destruct (promise l)).
    rewrite Hrun, log_log. split; [|by rewrite <- Hs].
    do 2 f_equal. unfold console_of. by destruct ev.
Qed.

Lemma load_requests a w :
  load a w =
  (Normal {| assets := a; promise := Pending |},
   log [LoadRequest "models/object0.obj"; LoadRequest "models/object1.obj";
        LoadRequest "models/object2.obj"; LoadRequest "models/object3.obj"] w).
Proof.
  unfold load, for_. change (Z.to_nat (4 - 0)) with 4. cbn [for_from].
  unfold bind, call, modify, ret. fold (log [LoadRequest ("models/object" +:+ pretty 0%Z +:+ ".obj")] w).
  unfold log at 1 2 3. cbn. unfold log, set_calls. cbn. by rewrite <- !app_assoc.
Qed.

Lemma main_unfold evs w : main evs w = deliver_all evs loading0 (log startup_calls w).
Proof.
  unfold main, bind at 1 2. cbn [call modify]. rewrite load_requests.
  fold (log [RemoveEventListener "load"] w). by rewrite log_log.
Qed.

Lemma deliver_all_loading evs : ∀ l w,
  ∃ w', deliver_all evs l w = (Normal (settle_all evs l), w').
Proof.
  induction evs as [|ev evs IH]; intros l w; [by eexists|].
  cbn [deliver_all]. unfold bind. rewrite deliver_settle. apply IH.
Qed.

Lemma assets_resolve l : assets (resolve l) = assets l.
Proof. unfold resolve. by destruct (promise l). Qed.

Lemma key_inj (i j : Z) : "object" +:+ pretty i = "object" +:+ pretty j → i = j.
Proof. intros H. apply (inj pretty). by simplify_eq/=. Qed.

Section completions.
Variable objs : Z → nat.

Lemma completions_pending order : ∀ k l pre post,
  promise l = Pending → (k + Z.of_nat (length order) ≤ 4)%Z →
  completions k order objs = pre ++ post → post ≠ [] →
  promise (settle_all pre l) = Pending.
Proof.
  induction order as [|i order IH]; intros k l pre post Hl Hk Hsplit Hpost.
  - cbn in Hsplit. symmetry in Hsplit. apply app_eq_nil in Hsplit as [_ ->]. done.
  - cbn [completions] in Hsplit.
    destruct pre as [|e1 [|e2 pre]]; [done|by simplify_eq/=|].
    cbn in Hsplit. injection Hsplit as <- <- Hsplit.
    assert (order ≠ []) as Hne.
    { intros ->. cbn in Hsplit. symmetry in Hsplit.
      by apply app_eq_nil in Hsplit as [_ ->]. }
    assert (0 < length order) by (destruct order; [done|cbn; lia]).
    cbn [length] in Hk.
    assert ((k + 1 =? 4)%Z = false) as Hneq by lia.
    apply (IH (k + 1)%Z _ pre post); [|lia|done|done].
    cbn. by rewrite Hneq.
Qed.

Lemma completions_fulfilled order : ∀ k l,
  promise l = Pending → order ≠ [] → (k + Z.of_nat (length order) = 4)%Z →
  promise (settle_all (completions k order objs) l) = Fulfilled.
Proof.
  induction order as [|i order IH]; intros k l Hl Hne Hk; [done|].
  cbn [completions settle_all foldl]. cbn [length] in Hk.
  destruct order as [|j order].
  - assert ((k + 1 =? 4)%Z = true) as Heq by (cbn in Hk; lia).
    cbn. rewrite Heq. unfold resolve. cbn. by rewrite Hl.
  - assert ((k + 1 =? 4)%Z = false) as Hneq by (cbn in Hk; lia).
    apply (IH (k + 1)%Z); [|done|cbn in *; lia].
    cbn. by rewrite Hneq.
Qed.

Lemma completions_assets order : ∀ k l i,
  i ∈ order ∨ assets l !! ("object" +:+ pretty i) = Some (objs i) →
  assets (settle_all (completions k order objs) l) !! ("object" +:+ pretty i) = Some (objs i).
Proof.
  induction order as [|j order IH]; intros k l i Hi.
  - destruct Hi as [Hi|Hi]; [by apply elem_of_nil in Hi|done].
  - cbn [completions settle_all foldl]. apply IH.
    assert (assets (settle (Progress (model_url j) (k + 1) 4) (settle (Loaded j (objs j)) l))
            = <["object" +:+ pretty j := objs j]> (assets l)) as ->.
    { cbn. destruct (k + 1 =? 4)%Z; [by rewrite assets_resolve|done]. }
    destruct (decide (i = j)) as [->|Hne]; [right; by rewrite lookup_insert_eq|].
    destruct Hi as [Hi|Hi].
    + apply elem_of_cons in Hi as [?|?]; [done|by left].
    + right. rewrite lookup_insert_ne; [done|]. intros Heq. by apply key_inj in Heq.
Qed.

End completions.

(** C4. In every execution in which the four requests succeed, in whatever
    order they complete, the promise of [load] is fulfilled at the end, and
    at no earlier moment: it is still pending after every proper initial
    part of the execution.  When it is fulfilled, each of the keys
    ["object0"] .. ["object3"] holds the model of its request. *)
Theorem load_resolves_after_all_keys (order : list Z) (objs : Z → nat) (w : World) :
  order ≡ₚ [0; 1; 2; 3]%Z →
  (∃ l w', main (completions 0 order objs) w = (Normal l, w') ∧ promise l = Fulfilled) ∧
  ∀ pre post, completions 0 order objs = pre ++ post →
    ∃ l w', main pre w = (Normal l, w') ∧
      (post ≠ [] → promise l = Pending) ∧
      (promise l = Fulfilled →
         post = [] ∧
         ∀ i, (0 ≤ i < 4)%Z → assets l !! ("object" +:+ pretty i) = Some (objs i)).
Proof.
  intros Hperm.
  assert (length order = 4) as Hlen by (by rewrite Hperm).
  assert (∀ i, (0 ≤ i < 4)%Z → i ∈ order) as Hin.
  { intros i Hi. rewrite Hperm.
    assert (i = 0 ∨ i = 1 ∨ i = 2 ∨ i = 3)%Z as [->|[->|[->| ->]]] by lia;
      repeat constructor. }
  assert (order ≠ []) as Hne by (by intros ->).
  split.
  - rewrite main_unfold.
    destruct (deliver_all_loading (completions 0 order objs) loading0 (log startup_calls w))
      as [w' ->].
    eexists _, w'. split; [done|]. apply completions_fulfilled; [done|done|lia].
  - intros pre post Hsplit. rewrite main_unfold.
    destruct (deliver_all_loading pre loading0 (log startup_calls w)) as [w' ->].
    eexists _, w'. split; [done|].
    assert (post ≠ [] → promise (settle_all pre loading0) = Pending) as Hpend.
    { intros Hpost. apply (completions_pending objs order 0 loading0 pre post); [done|lia|done|done]. }
    split; [done|]. intros Hful.
    destruct post as [|ev post]; [|by rewrite Hpend in Hful].
    split; [done|]. intros i Hi. rewrite app_nil_r in Hsplit. rewrite <- Hsplit.
    apply completions_assets. left. by apply Hin.
Qed.

Lemma load_resolves_after_all_keys_witness :
  ∃ l w', main (completions 0 [2; 0; 3; 1]%Z Z.to_nat) loaded_page = (Normal l, w') ∧
          promise l = Fulfilled.
Proof.
  apply (load_resolves_after_all_keys [2; 0; 3; 1]%Z Z.to_nat loaded_page).
  apply (Permutation_trans (l' := [0; 2; 3; 1]%Z)); [apply perm_swap|].
  apply perm_skip.
  apply (Permutation_trans (l' := [2; 1; 3]%Z)); [apply perm_skip, perm_swap|].
  apply perm_swap.
Defined.

Lemma console_of_cons ev evs : console_of (ev :: evs) = console_of [ev] ++ console_of evs.
Proof. unfold console_of. cbn. by destruct ev. Qed.

(** An execution that starts with the promise pending, followed to its
    end: where it leaves the promise and the world. *)
Lemma deliver_all_pending evs : ∀ l w,
  promise l = Pending →
  ∃ w', deliver_all evs l w = (Normal (settle_all evs l), w') ∧
    match promise (settle_all evs l) with
    | Pending => w' = log (console_of evs) w
    | Rejected e =>
        ∃ pre url post, evs = pre ++ Failed url :: post ∧ e = LoadError url ∧
          promise (settle_all pre l) = Pending ∧
          w' = log (console_of post) (console_error e (log (console_of pre) w))
    | Fulfilled =>
        ∃ pre item n post, evs = pre ++ Progress item n n :: post ∧
          promise (settle_all pre l) = Pending ∧
          w' = log (console_of post)
                 (after_chain (assets (settle_all pre l)) (log (console_of pre) w))
    end.
Proof.
  induction evs as [|ev evs IH]; intros l w Hl.
  - exists w. split; [done|]. cbn. rewrite Hl. by rewrite log_nil.
  - cbn [deliver_all]. unfold bind. rewrite deliver_settle, Hl. cbv zeta.
    change (settle_all (ev :: evs) l) with (settle_all evs (settle ev l)).
    destruct ev as [i obj|item n t|url].
    + (* a model is delivered *)
      cbn [settle assets_set promise]. rewrite Hl.
      destruct (IH (assets_set ("object" +:+ pretty i) obj l)
                  (log (console_of [Loaded i obj]) w)) as (w' & Hrun & Hw'); [done|].
      exists w'. split; [done|].
      destruct (promise (settle_all evs _)) as [| |e].
      * by rewrite Hw', log_log, <- console_of_cons.
      * destruct Hw' as (pre & item & n & post & -> & Hpre & ->).
        exists (Loaded i obj :: pre), item, n, post. repeat split; try done.
        by rewrite log_log, <- console_of_cons.
      * destruct Hw' as (pre & url & post & -> & -> & Hpre & ->).
        exists (Loaded i obj :: pre), url, post. repeat split; try done.
        by rewrite log_log, <- console_of_cons.
    + (* progress is reported *)
      cbn [settle console_of omap]. rewrite log_nil.
      destruct (n =? t)%Z eqn:Heq.
      * apply Z.eqb_eq in Heq as ->.
        assert (promise (resolve l) = Fulfilled) as Hful by (unfold resolve; by rewrite Hl).
        rewrite Hful.
        destruct (deliver_all_settled evs (resolve l) (after_chain (assets (resolve l)) w))
          as [Hrun Hp]; [congruence|].
        eexists. split; [exact Hrun|]. rewrite Hp, Hful.
        exists [], item, t, evs. split; [done|]. split; [done|]. cbn. rewrite log_nil.
        by rewrite assets_resolve.
      * rewrite Hl.
        destruct (IH l w Hl) as (w' & Hrun & Hw').
        exists w'. split; [done|].
        destruct (promise (settle_all evs l)) as [| |e].
        -- done.
        -- destruct Hw' as (pre & item' & n' & post & -> & Hpre & ->).
           exists (Progress item n t :: pre), item', n', post. cbn. rewrite Heq.
           repeat split; done.
        -- destruct Hw' as (pre & url & post & -> & -> & Hpre & ->).
           exists (Progress item n t :: pre), url, post. cbn. rewrite Heq.
           repeat split; done.
    + (* a request fails *)
      cbn [settle console_of omap]. rewrite log_nil.
      assert (promise (reject (LoadError url) l) = Rejected (LoadError url)) as Hrej
        by (unfold reject; by rewrite Hl).
      rewrite Hrej.
      destruct (deliver_all_settled evs (reject (LoadError url) l)
                  (console_error (LoadError url) w)) as [Hrun Hp]; [congruence|].
      eexists. split; [exact Hrun|]. rewrite Hp, Hrej.
      exists [], url, evs. cbn. by rewrite log_nil.
Qed.

Lemma deliver_all_app a : ∀ b l w,
  deliver_all (a ++ b) l w =
  match deliver_all a l w with
  | (Normal l', w') => deliver_all b l' w'
  | (Throw e, w') => (Throw e, w')
  end.
Proof.
  induction a as [|ev a IH]; intros b l w; [done|].
  cbn [app deliver_all]. unfold bind. rewrite deliver_settle. apply IH.
Qed.

(** ** A whole startup *)

(** X18. Given the four models in the store and a viewport on the page,
    every execution in which the four requests succeed ends with the scene set
    up and its first frame rendered: the ring holds the four models in key
    order, the cloud its 2000 particles, and the effects were, in this
    order, the requests, a log line per model, the set-up of the scene and
    the first frame. *)
Lemma startup_succeeds (rs : Z → nat) (o : Z → Object3D) order w :
  order ≡ₚ [0; 1; 2; 3]%Z →
  viewport w = true →
  (∀ i, (0 ≤ i < 4)%Z → heap w !! rs i = Some (o i)) →
  (∀ i, (0 ≤ i < 4)%Z → parent (o i) = None) →
  (∀ i j, (0 ≤ i < 4)%Z → (0 ≤ j < 4)%Z → rs i = rs j → i = j) →
  ∃ l w' g grp p cloud,
    main (completions 0 order rs) w = (Normal l, w') ∧ promise l = Fulfilled ∧
    objects w' = Some g ∧ heap w' !! g = Some grp ∧
    children grp = [rs 0%Z; rs 1%Z; rs 2%Z; rs 3%Z] ∧
    particles w' = Some p ∧ heap w' !! p = Some cloud ∧
    Z.of_nat (length (children cloud)) = 2000%Z ∧
    calls w' = calls w ++ startup_calls ++ console_of (completions 0 order rs) ++
               [AppendChild; ControlsLookAt; AddEventListener "resize";
                RequestAnimationFrame; ComposerRender (ticks w 0)].
Proof.
  intros Hperm Hview Hheap Hparent Hinj.
  assert (length order = 4) as Hlen by (by rewrite Hperm).
  assert (NoDup order) as Hnd by (rewrite Hperm; compute_done).
  assert (∀ i, i ∈ order ↔ (0 ≤ i < 4)%Z) as Hin.
  { intros i. rewrite Hperm. split.
    - intros Hi. repeat (apply elem_of_cons in Hi as [->|Hi]; [lia|]).
      by apply elem_of_nil in Hi.
    - intros Hi.
      assert (i = 0 ∨ i = 1 ∨ i = 2 ∨ i = 3)%Z as [->|[->|[->| ->]]] by lia;
        repeat constructor. }
  assert (order ≠ []) as Hne by (by intros ->).
  set (evs := completions 0 order rs).
  assert (promise (settle_all evs loading0) = Fulfilled) as Hful.
  { apply completions_fulfilled; [done|done|lia]. }
  rewrite main_unfold.
  destruct (deliver_all_pending evs loading0 (log startup_calls w)) as (w' & Hrun & Hw');
    [done|].
  rewrite Hful in Hw'. destruct Hw' as (pre & item & n & post & Hevs & Hpre & ->).
  assert (post = []) as ->.
  { destruct post as [|ev post]; [done|]. exfalso.
    assert (promise (settle_all (pre ++ [Progress item n n]) loading0) = Pending) as Hp.
    { apply (completions_pending rs order 0 loading0 _ (ev :: post)); [done|lia| |done].
      by rewrite <- app_assoc. }
    unfold settle_all in Hp. rewrite foldl_app in Hp. cbn in Hp. rewrite Z.eqb_refl in Hp.
    unfold resolve in Hp. fold (settle_all pre loading0) in Hp. by rewrite Hpre in Hp. }
  set (a := assets (settle_all pre loading0)) in *.
  assert (∀ i, (0 ≤ i < 4)%Z → a !! ("object" +:+ pretty i) = Some (rs i)) as Ha.
  { intros i Hi.
    pose proof (completions_assets rs order 0 loading0 i (or_introl (proj2 (Hin i) Hi))) as Hk.
    fold evs in Hk. rewrite Hevs in Hk.
    unfold settle_all in Hk. rewrite foldl_app in Hk. cbn in Hk. rewrite Z.eqb_refl in Hk.
    by rewrite assets_resolve in Hk. }
  change (console_of []) with (@nil Call) in Hrun. rewrite log_nil, log_log in Hrun.
  set (w0 := log (startup_calls ++ console_of pre) w) in *.
  destruct (initialize_ring a rs o w0)
    as (w1 & g & grp & Hinit & Hg & Hgrp & Hcs & _ & p & cloud & Hp & Hcloud & Hsize & Hpg &
        Hclock & [comp Hcomp] & Hticks & Hcalls); try done.
  assert (NoDup (children grp)) as Hndc.
  { rewrite Hcs. apply NoDup_fmap_2_strong with (f := rs) (l := [0; 1; 2; 3]%Z); [|compute_done].
    intros i j Hi Hj. apply Hinj.
    - repeat (apply elem_of_cons in Hi as [->|Hi]; [lia|]). by apply elem_of_nil in Hi.
    - repeat (apply elem_of_cons in Hj as [->|Hj]; [lia|]). by apply elem_of_nil in Hj. }
  destruct (render_run None w1 _ g p comp grp Hclock Hg Hp Hcomp Hgrp Hndc)
    as (h' & Hrender & Ht).
  unfold after_chain in Hrun. rewrite Hinit, Hrender in Hrun.
  assert (∀ r x, heap w1 !! r = Some x →
    ∃ x', alter (with_rotation (Euler.add_y (ticks w1 0 * 0.01))) p h' !! r = Some x' ∧
          children x' = children x) as Hkeep.
  { intros r x Hx.
    assert (∃ x', h' !! r = Some x' ∧ children x' = children x) as (x' & Hx' & Hcx).
    { rewrite Ht, Hx. destruct (decide (r ∈ children grp)); eauto. }
    destruct (decide (p = r)) as [->|Hpr].
    - rewrite lookup_alter_eq, Hx'. eauto.
    - rewrite lookup_alter_ne, Hx' by done. eauto. }
  destruct (Hkeep g grp Hgrp) as (grp' & Hgrp' & Hcs').
  destruct (Hkeep p cloud Hcloud) as (cloud' & Hcloud' & Hcc).
  eexists _, _, g, grp', p, cloud'.
  split; [exact Hrun|]. split; [done|]. world_simpl.
  split; [done|]. split; [done|]. split; [congruence|].
  split; [done|]. split; [done|]. split; [congruence|].
  rewrite Hcalls, Hticks. unfold w0. world_simpl.
  assert (console_of evs = console_of pre) as ->.
  { rewrite Hevs. unfold console_of. rewrite omap_app. cbn. by rewrite app_nil_r. }
  by rewrite <- !app_assoc.
Qed.

Lemma startup_succeeds_witness :
  ∃ l w' g grp,
    main (completions 0 [2; 0; 3; 1]%Z Z.to_nat) loaded_page = (Normal l, w') ∧
    promise l = Fulfilled ∧
    objects w' = Some g ∧ heap w' !! g = Some grp ∧ children grp = [0; 1; 2; 3].
Proof.
  destruct (startup_succeeds Z.to_nat (λ _, new_Object3D Model) [2; 0; 3; 1]%Z loaded_page)
    as (l & w' & g & grp & p & cloud & Hrun & Hp & Hg & Hgrp & Hcs & _).
  - apply (Permutation_sym (l' := [2; 0; 3; 1]%Z)). compute_done.
  - reflexivity.
  - apply four_models_lookup.
  - reflexivity.
  - intros i j Hi Hj Hij. lia.
  - exists l, w', g, grp. split; [exact Hrun|]. split; [exact Hp|].
    split; [exact Hg|]. split; [exact Hgrp|exact Hcs].
Defined.

(** * Further facts about the same code *)

(** ** [random] and the cloud *)

(** X1. For [min ≤ max], and a draw in [[0, 1)], [random min max] makes
    exactly one draw and returns a value in [[min, max]], below [max]
    unless the bounds coincide. *)
Theorem random_in_range (min max : R) w :
  (min <= max)%R → (0 <= entropy w (draws w) < 1)%R →
  ∃ v, random min max w = (Normal v, set_draws (S (draws w)) w) ∧
       (min <= v <= max)%R ∧ (min < max → v < max)%R.
Proof.
  intros Hmm Hu. eexists. split; [reflexivity|]. split; [nra|]. intros Hlt. nra.
Qed.

Lemma random_in_range_witness :
  ∃ v, random 120 140 blank_page = (Normal v, set_draws 1 blank_page) ∧
       (120 <= v <= 140)%R.
Proof.
  destruct (random_in_range 120 140 blank_page) as (v & Hrun & Hv & _).
  - lra.
  - cbn. lra.
  - exists v. auto.
Defined.

(** X2. Every particle that [createParticleCloud] puts in its group lies in
    the annulus around the vertical axis between the radii 120 and 140, at
    a height in [[-60, 100)]; it is a childless mesh of the shared box
    geometry and material, and the group is its parent. *)
Theorem createParticleCloud_annulus (n : Z) (w : World) :
  (∀ k, (0 <= entropy w k < 1)%R) →
  ∃ g w' ms,
    createParticleCloud n w = (Normal g, w') ∧
    children <$> heap w' !! g = Some ms ∧
    ∀ m, m ∈ ms →
      ∃ o, heap w' !! m = Some o ∧
        let x := Vector3.x (position o) in
        let y := Vector3.y (position o) in
        let z := Vector3.z (position o) in
        (120 * 120 <= x * x + z * z < 140 * 140)%R ∧ (-60 <= y < 100)%R ∧
        parent o = Some g ∧ children o = [] ∧
        payload o = Mesh (0.35, 0.35, 0.35)%R 100.
Proof.
  intros Hu.
  destruct (wp_normal (createParticleCloud n) (λ g w', ∃ h ms,
      w' = set_heap h (set_draws (draws w + 6 * Z.to_nat n) w) ∧
      cloud_store w g ms h) w)
    as (g & w' & Hrun & h & ms & -> & (Hgrp & Hnd & Hms & _)).
  { apply wp_createParticleCloud. intros h ms g Hst _. by exists h, ms. }
  eexists g, _, ms. split; [exact Hrun|]. cbn [heap set_heap].
  split; [by rewrite Hgrp|].
  intros m [j Hj]%list_elem_of_lookup. destruct (Hms _ _ Hj) as (_ & _ & Hm).
  set (d := draws w + 6 * j) in Hm. clearbody d.
  eexists. split; [exact Hm|]. cbn.
  pose proof (Hu d) as H0. pose proof (Hu (S d)) as H1. pose proof (Hu (S (S d))) as H2.
  set (a := (entropy w d * (PI * 2 - 0) + 0)%R).
  set (r := (entropy w (S d) * (140 - 120) + 120)%R).
  assert (120 <= r < 140)%R as Hr by (unfold r; lra).
  assert (r * cos a * (r * cos a) + r * sin a * (r * sin a) = r * r)%R as ->.
  { pose proof (sin2_cos2 a) as Hsc. unfold Rsqr in Hsc. nra. }
  repeat split; try done; nra.
Qed.

Lemma createParticleCloud_annulus_witness :
  ∃ g w' ms, createParticleCloud 3 blank_page = (Normal g, w') ∧
             children <$> heap w' !! g = Some ms.
Proof.
  destruct (createParticleCloud_annulus 3 blank_page) as (g & w' & ms & H1 & H2 & _).
  - intros k. cbn. lra.
  - exists g, w', ms. auto.
Defined.

(** X3. [createParticleCloud n] makes exactly [6 n] draws ([0] for
    [n ≤ 0]) and changes the world in nothing else but the store, where
    the group it returns is new and every object that was there before is
    left exactly as it was. *)
Theorem createParticleCloud_frame (n : Z) (w : World) :
  ∃ g h,
    createParticleCloud n w =
      (Normal g, set_heap h (set_draws (draws w + 6 * Z.to_nat n) w)) ∧
    heap w !! g = None ∧
    ∀ r, is_Some (heap w !! r) → h !! r = heap w !! r.
Proof.
  destruct (wp_normal (createParticleCloud n) (λ g w', ∃ h ms,
      w' = set_heap h (set_draws (draws w + 6 * Z.to_nat n) w) ∧
      heap w !! g = None ∧ cloud_store w g ms h) w)
    as (g & w' & Hrun & h & ms & -> & Hg & (_ & _ & _ & Hframe)).
  { apply wp_createParticleCloud. intros h ms g Hst _. exists h, ms.
    split; [done|]. split; [apply fresh_lookup|done]. }
  exists g, h. split; [done|]. split; [done|].
  intros r Hr. apply Hframe. by apply elem_of_dom.
Qed.

(** ** The scene that [initialize] builds *)

Lemma World_ext (w1 w2 : World) :
  clock w1 = clock w2 → composer w1 = composer w2 → camera w1 = camera w2 →
  objects w1 = objects w2 → particles w1 = particles w2 → id w1 = id w2 →
  heap w1 = heap w2 → entropy w1 = entropy w2 → draws w1 = draws w2 →
  ticks w1 = ticks w2 → innerWidth w1 = innerWidth w2 →
  innerHeight w1 = innerHeight w2 → viewport w1 = viewport w2 → now w1 = now w2 →
  timers w1 = timers w2 → next_handle w1 = next_handle w2 → calls w1 = calls w2 →
  w1 = w2.
Proof. destruct w1, w2. cbn. intros. by subst. Qed.

Lemma initialize_run assets (rs : Z → nat) (o : Z → Object3D) w :
  viewport w = true →
  (∀ i, (0 ≤ i < 4)%Z → assets !! ("object" +:+ pretty i) = Some (rs i)) →
  (∀ i, (0 ≤ i < 4)%Z → heap w !! rs i = Some (o i)) →
  (∀ i, (0 ≤ i < 4)%Z → parent (o i) = None) →
  (∀ i j, (0 ≤ i < 4)%Z → (0 ≤ j < 4)%Z → rs i = rs j → i = j) →
  ∃ w' s p g cam spot hemi ms,
    initialize assets w = (Normal tt, w') ∧ scene_built rs o w w' s p g cam spot hemi ms.
Proof.
  intros Hview Hassets Hheap Hparent Hinj.
  destruct (wp_normal (initialize assets) (λ _ w', ∃ s p g cam spot hemi ms,
      scene_built rs o w w' s p g cam spot hemi ms) w)
    as ([] & w' & Hrun & s & p & g & cam & spot & hemi & ms & H);
    [|by exists w', s, p, g, cam, spot, hemi, ms].
  unfold initialize. wp_steps. rename r into s, Hr into Hs.
  rewrite Hview. cbv iota. wp_steps.
  apply wp_createParticleCloud. intros h ms p (Hp & Hnd & Hms & Hframe) Hlen.
  world_simpl in Hframe. world_simpl in Hms.
  assert (Hfp : (<[s := new_Object3D (Scene 16053492 0.005)]> (heap w)) !! p = None)
    by apply fresh_lookup.
  clearbody p. apply lookup_insert_None in Hfp as [Hfp Hsp].
  assert (Hhs : h !! s = Some (new_Object3D (Scene 16053492 0.005))).
  { rewrite Hframe, lookup_insert_eq; [done|]. apply elem_of_dom. rewrite lookup_insert_eq. eauto. }
  assert (Hsr : ∀ i, (0 ≤ i < 4)%Z → s ≠ rs i).
  { intros i Hi Heq. rewrite Heq, Hheap in Hs; done. }
  assert (Hpr : ∀ i, (0 ≤ i < 4)%Z → p ≠ rs i).
  { intros i Hi Heq. rewrite Heq, Hheap in Hfp; done. }
  assert (Hold : ∀ r, is_Some (heap w !! r) → h !! r = heap w !! r ∧ r ≠ s ∧ r ≠ p).
  { intros r [x Hx].
    assert (r ≠ s) by congruence. assert (r ≠ p) by congruence.
    split; [|done]. rewrite Hframe.
    - by rewrite lookup_insert_ne.
    - apply elem_of_dom. rewrite lookup_insert_ne, Hx by done. eauto. }
  assert (Hhr : ∀ i, (0 ≤ i < 4)%Z → h !! rs i = Some (o i)).
  { intros i Hi. destruct (Hold (rs i)) as [-> _]; [rewrite Hheap; eauto|]; auto. }
  assert (Hmw : ∀ j m, ms !! j = Some m →
            heap w !! m = None ∧ m ≠ s ∧ m ≠ p ∧ (∀ i, (0 ≤ i < 4)%Z → m ≠ rs i) ∧
            h !! m = Some (particle (entropy w) (draws w + 6 * j) p)).
  { intros j m Hj. destruct (Hms _ _ Hj) as (Hm1 & Hm2 & Hm3).
    apply not_elem_of_dom in Hm1. apply lookup_insert_None in Hm1 as [Hm1 Hm1'].
    repeat split; try done. intros i Hi Heq. rewrite Heq, Hheap in Hm1; done. }
  wp_steps.
  eapply wp_add_orphan; [done|world_simpl; exact Hp|done|].
  wp_steps. rename r into g, Hr into Hg.
  rewrite !lookup_alter_None in Hg.
  assert (Hgs : g ≠ s) by congruence.
  assert (Hgp : g ≠ p) by congruence.
  assert (Hgr : ∀ i, (0 ≤ i < 4)%Z → g ≠ rs i).
  { intros i Hi Heq. rewrite Heq, Hhr in Hg; done. }
  match goal with |- wp _ _ _ ?w0 => set (w3 := w0) end.
  set (h3 := <[g:=new_Object3D Group]>
               (alter (with_children (λ cs : list nat, cs ++ [p])) s
                  (alter (with_parent (Some s)) p h))) in *.
  unfold for_. change (Z.to_nat (4 - 0)) with 4.
  apply (wp_for_from (λ k angle w', angle = (IZR (Z.of_nat k) * quarter)%R ∧
    ∃ h', w' = set_heap h' w3 ∧ ring_store rs o g h3 k h')).
  - split; [change (Z.of_nat 0) with 0%Z; lra|]. exists h3. split; [done|].
    split; [|split; [|split]].
    + exists []. split; [|split; [done|lia]]. unfold h3. by rewrite lookup_insert_eq.
    + lia.
    + intros i Hi. unfold h3.
      rewrite lookup_insert_ne, !lookup_alter_ne by auto. auto.
    + done.
  - intros k angle w' Hk (-> & h' & -> & Hst).
    rewrite Z.add_0_l.
    destruct Hst as (Hcs & Hdone & Htodo & Hfr) eqn:Est. clear Est.
    wp_step. apply wp_defined. rewrite Hassets by lia.
    wp_steps.
    eapply wp_add_orphan; [apply Hgr; lia|..].
    + world_simpl. rewrite !lookup_alter_eq, Htodo by lia. done.
    + simpl. apply Hparent. lia.
    + wp_steps. split.
      * rewrite Nat2Z.inj_succ, succ_IZR. unfold quarter. lra.
      * eexists. split; [reflexivity|].
        apply (ring_store_step rs o g h3 k h'); auto.
  - intros angle w' (_ & h' & -> & (Hcs & Hdone & _ & Hfr)).
    destruct Hcs as (cs & Hgrp & Hlen4 & Hcs).
    assert (cs = [rs 0%Z; rs 1%Z; rs 2%Z; rs 3%Z]) as ->.
    { destruct cs as [|c0 [|c1 [|c2 [|c3 [|]]]]]; try done.
      pose proof (Hcs 0 ltac:(lia)) as E0. pose proof (Hcs 1 ltac:(lia)) as E1.
      pose proof (Hcs 2 ltac:(lia)) as E2. pose proof (Hcs 3 ltac:(lia)) as E3.
      change (Z.of_nat 0) with 0%Z in E0. change (Z.of_nat 1) with 1%Z in E1.
      change (Z.of_nat 2) with 2%Z in E2. change (Z.of_nat 3) with 3%Z in E3.
      cbn in E0, E1, E2, E3. congruence. }
    assert (Hh's : h' !! s =
              Some (with_children (λ cs, cs ++ [p]) (new_Object3D (Scene 16053492 0.005)))).
    { rewrite Hfr by auto. unfold h3.
      rewrite lookup_insert_ne, lookup_alter_eq, lookup_alter_ne, Hhs by auto. done. }
    assert (Hh'p : h' !! p = Some (with_parent (Some s) (group_of ms))).
    { rewrite Hfr by auto. unfold h3.
      rewrite lookup_insert_ne, lookup_alter_ne, lookup_alter_eq, Hp by auto. done. }
    assert (Hh'old : ∀ r, r ≠ g → r ≠ s → r ≠ p → (∀ i, (0 ≤ i < 4)%Z → r ≠ rs i) →
              h' !! r = h !! r).
    { intros r H1 H2 H3 H4. rewrite Hfr by auto. unfold h3.
      by rewrite lookup_insert_ne, !lookup_alter_ne by auto. }
    wp_step. eapply wp_add_orphan; [auto|world_simpl; exact Hgrp|done|].
    cbv beta. wp_step. wp_step. rename r into cam, Hr into Hcam.
    rewrite !lookup_alter_None in Hcam.
    do 6 wp_step. rename r into spot, Hr into Hspot.
    rewrite lookup_insert_None, !lookup_alter_None in Hspot. destruct Hspot as [Hspot Hcs'].
    do 2 wp_step. rename r into hemi, Hr into Hhemi.
    rewrite !lookup_insert_None, !lookup_alter_None in Hhemi.
    destruct Hhemi as [[Hhemi Hch] Hsh].
    assert (∀ r, is_Some (h' !! r) → r ≠ cam ∧ r ≠ spot ∧ r ≠ hemi) as Hne.
    { intros r [x Hx]. repeat split; congruence. }
    destruct (Hne s ltac:(eauto)) as (Hs1 & Hs2 & Hs3).
    destruct (Hne g ltac:(eauto)) as (Hg1 & Hg2 & Hg3).
    destruct (Hne p ltac:(eauto)) as (Hp1 & Hp2 & Hp3).
    wp_step. eapply wp_add_orphan; [done|world_simpl; apply lookup_insert_eq|done|].
    cbv beta. wp_step. eapply wp_add_orphan; [done|world_simpl|..].
    { rewrite !lookup_alter_ne, lookup_insert_ne, lookup_insert_eq by done. done. }
    { done. }
    cbv beta. wp_steps. apply wp_defined. wp_steps.
    exists s, p, g, cam, spot, hemi, ms.
    unfold scene_built. cbv zeta. unfold w3. world_simpl.
    set (N := Z.to_nat 2000) in *. clearbody N.
    assert (∀ r, r ≠ s → r ≠ g → r ≠ cam → r ≠ spot → r ≠ hemi →
      alter (with_children (λ cs : list nat, cs ++ [spot])) s
        (alter (with_parent (Some s)) spot
           (alter (with_children (λ cs : list nat, cs ++ [hemi])) s
              (alter (with_parent (Some s)) hemi
                 (<[hemi:=new_Object3D (HemisphereLight 16711680 3407872 0.5)]>
                    (<[spot:=with_position (λ p0 : Vector3.t, Vector3.set p0 0 200 0)
                               (new_Object3D (SpotLight 16777215 0.8))]>
                       (<[cam:=with_position (λ p0 : Vector3.t, Vector3.set p0 0 10 0)
                                 (new_Object3D
                                    (PerspectiveCamera 45
                                       (IZR (innerWidth w) / IZR (innerHeight w)) 0.1 1000))]>
                          (alter (with_children (λ cs : list nat, cs ++ [g])) s
                             (alter (with_parent (Some s)) g h')))))))) !! r = h' !! r) as Hrest.
    { intros r H1 H2 H3 H4 H5.
      by rewrite !lookup_alter_ne, !lookup_insert_ne, !lookup_alter_ne by done. }
    assert (Hlate : ∀ r, h' !! r = None → g ≠ r → heap w !! r = None).
    { intros r Hr Hrg. destruct (heap w !! r) eqn:E; [|done]. exfalso.
      destruct (Hold r ltac:(eauto)) as (Hx & Hx1 & Hx2).
      rewrite <- Hh'old in Hx; [congruence|done|done|done|].
      intros i Hi ->. rewrite Hdone in Hr by lia. done. }
    split; [|split; [|split; [|split; [|split; [|split; [|split; [|split; [|split;
      [|split; [|split; [|split; [|split]]]]]]]]]]]].
    + apply World_ext; world_simpl; try done.
      by rewrite <- !(assoc_L (++)).
    + repeat (apply NoDup_cons; split); [..|apply NoDup_nil_2];
        rewrite ?elem_of_cons, ?elem_of_nil; intuition congruence.
    + intros r [Hr|Hr]%elem_of_app.
      * rewrite !elem_of_cons, elem_of_nil in Hr.
        destruct Hr as [->|[->|[->|[->|[->|[->|[]]]]]]]; try done.
        -- destruct (heap w !! g) eqn:E; [|done].
           destruct (Hold g ltac:(eauto)) as [Hx _]. congruence.
        -- by apply Hlate.
        -- by apply Hlate.
        -- by apply Hlate.
      * apply list_elem_of_lookup in Hr as [j Hj]. by destruct (Hmw _ _ Hj).
    + rewrite lookup_alter_eq, lookup_alter_ne, lookup_alter_eq, lookup_alter_ne,
        !lookup_insert_ne, lookup_alter_eq, lookup_alter_ne, Hh's by done.
      done.
    + rewrite Hrest by done. exact Hh'p.
    + done.
    + done.
    + intros j m Hj. destruct (Hmw _ _ Hj) as (Hm1 & Hm2 & Hm3 & Hm4 & Hm5).
      assert (m ≠ g) by congruence.
      assert (h' !! m = h !! m) as Hh'm by (by apply Hh'old).
      destruct (Hne m ltac:(rewrite Hh'm, Hm5; eauto)) as (? & ? & ?).
      rewrite Hrest by done. by rewrite Hh'm.
    + rewrite !lookup_alter_ne, !lookup_insert_ne, lookup_alter_ne, lookup_alter_eq, Hgrp by done.
      done.
    + intros i Hi. specialize (Hdone i ltac:(lia)).
      destruct (Hne (rs i) ltac:(eauto)) as (Hr1 & Hr2 & Hr3).
      rewrite Hrest; [done|..]; try done; apply not_eq_sym; auto.
    + rewrite !lookup_alter_ne, !lookup_insert_ne, lookup_insert_eq by done. done.
    + rewrite lookup_alter_ne, lookup_alter_eq, lookup_alter_ne, lookup_alter_ne,
        lookup_insert_ne, lookup_insert_eq by done. done.
    + rewrite lookup_alter_ne, lookup_alter_ne, lookup_alter_ne, lookup_alter_eq,
        lookup_insert_eq by done. done.
    + intros r Hr Hrs. destruct (Hold r Hr) as (Hx & Hx1 & Hx2).
      assert (r ≠ g) by (intros ->; destruct Hr; congruence).
      assert (h' !! r = h !! r) as Hh'r by (by apply Hh'old).
      destruct (Hne r ltac:(rewrite Hh'r, Hx; done)) as (? & ? & ?).
      rewrite Hrest by done. by rewrite Hh'r.
Qed.

(** X4. With four distinct, parentless models as assets, [initialize] puts
    the ring's members on the corners of a square around the vertical
    axis: member 0 at [(x, z) = (-100, 0)], member 1 at [(0, -100)],
    member 2 at [(100, 0)], member 3 at [(0, 100)]; each keeps its height,
    rotation, children and payload and gets the ring as its parent. *)
Theorem initialize_ring_square assets (rs : Z → nat) (o : Z → Object3D) w :
  viewport w = true →
  (∀ i, (0 ≤ i < 4)%Z → assets !! ("object" +:+ pretty i) = Some (rs i)) →
  (∀ i, (0 ≤ i < 4)%Z → heap w !! rs i = Some (o i)) →
  (∀ i, (0 ≤ i < 4)%Z → parent (o i) = None) →
  (∀ i j, (0 ≤ i < 4)%Z → (0 ≤ j < 4)%Z → rs i = rs j → i = j) →
  ∃ w' g,
    initialize assets w = (Normal tt, w') ∧ objects w' = Some g ∧
    ∀ i x z,
      (i, (x, z)) ∈ [(0%Z, (-100, 0)%R); (1%Z, (0, -100)%R); (2%Z, (100, 0)%R);
                     (3%Z, (0, 100)%R)] →
      heap w' !! rs i =
        Some {| position := Vector3.mk x (Vector3.y (position (o i))) z;
                rotation := rotation (o i); parent := Some g;
                children := children (o i); payload := payload (o i) |}.
Proof.
  intros Hview Hassets Hheap Hparent Hinj.
  destruct (initialize_run assets rs o w)
    as (w' & s & p & g & cam & spot & hemi & ms & Hrun & Hw' & _ & _ & _ & _ & _ & _ & _ &
        _ & Hpos & _); try done.
  exists w', g. split; [done|]. split; [rewrite Hw'; done|].
  intros i x z Hi.
  assert (cos (2 * (PI / 2)) = -1)%R as Hc2 by (replace (2 * (PI / 2))%R with PI by lra; apply cos_PI).
  assert (sin (2 * (PI / 2)) = 0)%R as Hs2 by (replace (2 * (PI / 2))%R with PI by lra; apply sin_PI).
  rewrite !elem_of_cons, elem_of_nil in Hi.
  assert (quarter = PI / 2)%R as Hq by (unfold quarter; lra).
  destruct Hi as [Hi|[Hi|[Hi|[Hi|[]]]]]; injection Hi as -> -> ->;
    rewrite Hpos by lia; unfold placed; rewrite Hq;
    unfold with_parent, with_position, Vector3.set_x, Vector3.set_z;
    cbn [position rotation parent children payload Vector3.x Vector3.y Vector3.z];
    do 2 f_equal.
  - rewrite Rmult_0_l, cos_0, sin_0. f_equal; lra.
  - rewrite Rmult_1_l, cos_PI2, sin_PI2. f_equal; lra.
  - rewrite Hc2, Hs2. f_equal; lra.
  - rewrite cos_3PI2, sin_3PI2. f_equal; lra.
Qed.

Lemma initialize_ring_square_witness :
  ∃ w' g, initialize four_assets loaded_page = (Normal tt, w') ∧ objects w' = Some g ∧
    heap w' !! 2 =
      Some {| position := Vector3.mk 100 0 0; rotation := Euler.mk 0 0 0;
              parent := Some g; children := []; payload := Model |}.
Proof.
  destruct (initialize_ring_square four_assets Z.to_nat (λ _, new_Object3D Model) loaded_page)
    as (w' & g & Hrun & Hg & Hpos).
  - reflexivity.
  - apply four_assets_lookup.
  - apply four_models_lookup.
  - reflexivity.
  - intros i j Hi Hj Heq. lia.
  - exists w', g. split; [done|]. split; [done|].
    apply (Hpos 2%Z 100%R 0%R). do 2 right. left.
Defined.

(** X5. The scene graph that [initialize] builds: the scene's children
    are, in this order, the particle cloud, the ring, the hemisphere light
    and the spot light, and each of them has the scene as its parent; the
    cloud holds 2000 particles, the ring the four assets in key order; the
    camera is bound but is not part of the graph (it has no parent), and
    the scene is the graph's root.  The spot light is moved to
    [(0, 200, 0)]; the hemisphere light stays where it was made. *)
Theorem initialize_scene_graph assets (rs : Z → nat) (o : Z → Object3D) w :
  viewport w = true →
  (∀ i, (0 ≤ i < 4)%Z → assets !! ("object" +:+ pretty i) = Some (rs i)) →
  (∀ i, (0 ≤ i < 4)%Z → heap w !! rs i = Some (o i)) →
  (∀ i, (0 ≤ i < 4)%Z → parent (o i) = None) →
  (∀ i j, (0 ≤ i < 4)%Z → (0 ≤ j < 4)%Z → rs i = rs j → i = j) →
  ∃ w' s p g cam spot hemi scene cloud ring,
    initialize assets w = (Normal tt, w') ∧
    particles w' = Some p ∧ objects w' = Some g ∧ camera w' = Some cam ∧
    heap w' !! s = Some scene ∧ payload scene = Scene 0xf4f4f4 0.005 ∧
    parent scene = None ∧ children scene = [p; g; hemi; spot] ∧
    NoDup [s; p; g; cam; spot; hemi] ∧
    heap w' !! p = Some cloud ∧ parent cloud = Some s ∧
    Z.of_nat (length (children cloud)) = 2000%Z ∧
    heap w' !! g = Some ring ∧ parent ring = Some s ∧
    children ring = [rs 0%Z; rs 1%Z; rs 2%Z; rs 3%Z] ∧
    (parent <$> heap w' !! hemi) = Some (Some s) ∧
    (payload <$> heap w' !! hemi) = Some (HemisphereLight 0xff0000 0x340000 0.5) ∧
    (position <$> heap w' !! hemi) = Some (Vector3.mk 0 1 0) ∧
    (parent <$> heap w' !! spot) = Some (Some s) ∧
    (payload <$> heap w' !! spot) = Some (SpotLight 0xffffff 0.8) ∧
    (position <$> heap w' !! spot) = Some (Vector3.mk 0 200 0) ∧
    (parent <$> heap w' !! cam) = Some None.
Proof.
  intros Hview Hassets Hheap Hparent Hinj.
  destruct (initialize_run assets rs o w)
    as (w' & s & p & g & cam & spot & hemi & ms & Hrun & Hw' & Hnd & _ & Hs & Hp & Hlen &
        _ & _ & Hg & _ & Hcam & Hspot & Hhemi & _); try done.
  exists w', s, p, g, cam, spot, hemi. eexists _, _, _.
  split; [done|]. split; [by rewrite Hw'|]. split; [by rewrite Hw'|].
  split; [by rewrite Hw'|]. split; [exact Hs|]. do 3 (split; [done|]).
  split; [done|]. split; [exact Hp|]. split; [done|].
  split; [cbn; rewrite Hlen; by rewrite Z2Nat.id|].
  split; [exact Hg|]. do 2 (split; [done|]).
  rewrite Hhemi, Hspot, Hcam. done.
Qed.

Lemma initialize_scene_graph_witness :
  ∃ w' s p g hemi spot scene,
    initialize four_assets loaded_page = (Normal tt, w') ∧
    heap w' !! s = Some scene ∧ children scene = [p; g; hemi; spot].
Proof.
  destruct (initialize_scene_graph four_assets Z.to_nat (λ _, new_Object3D Model) loaded_page)
    as (w' & s & p & g & cam & spot & hemi & scene & cloud & ring & Hrun & _ & _ & _ & Hs &
        _ & _ & Hcs & _).
  - reflexivity.
  - apply four_assets_lookup.
  - apply four_models_lookup.
  - reflexivity.
  - intros i j Hi Hj Heq. lia.
  - exists w', s, p, g, hemi, spot, scene. auto.
Defined.

(** X6. What [initialize] binds and wires: the clock is new; the renderer
    has the size of the window and the fog's colour as clear colour; the
    composer's passes are the render pass of the scene through the bound
    camera, then the film pass, which is the one rendered to the screen;
    the camera sits at [(0, 10, 0)] with the window's aspect ratio; the
    resize listener is registered once, as the last thing, and [id], the
    timers and the window are not touched. *)
Theorem initialize_wiring assets (rs : Z → nat) (o : Z → Object3D) w :
  viewport w = true →
  (∀ i, (0 ≤ i < 4)%Z → assets !! ("object" +:+ pretty i) = Some (rs i)) →
  (∀ i, (0 ≤ i < 4)%Z → heap w !! rs i = Some (o i)) →
  (∀ i, (0 ≤ i < 4)%Z → parent (o i) = None) →
  (∀ i j, (0 ≤ i < 4)%Z → (0 ≤ j < 4)%Z → rs i = rs j → i = j) →
  ∃ w' s cam,
    initialize assets w = (Normal tt, w') ∧
    clock w' = Some {| queries := 0 |} ∧
    composer w' =
      Some {| renderer := {| antialias := false; alpha := true; shadowMapEnabled := false;
                             canvasSize := (innerWidth w, innerHeight w);
                             clearColor := 0xf4f4f4 |};
              passes := [RenderPass s cam; FilmPass filmOptions true] |} ∧
    (payload <$> heap w' !! s) = Some (Scene 0xf4f4f4 0.005) ∧
    camera w' = Some cam ∧
    heap w' !! cam =
      Some {| position := Vector3.mk 0 10 0; rotation := Euler.mk 0 0 0;
              parent := None; children := [];
              payload := PerspectiveCamera 45 (IZR (innerWidth w) / IZR (innerHeight w))
                           0.1 1000 |} ∧
    calls w' = calls w ++ [AppendChild; ControlsLookAt; AddEventListener "resize"] ∧
    id w' = id w ∧ timers w' = timers w ∧ now w' = now w ∧
    innerWidth w' = innerWidth w ∧ innerHeight w' = innerHeight w.
Proof.
  intros Hview Hassets Hheap Hparent Hinj.
  destruct (initialize_run assets rs o w)
    as (w' & s & p & g & cam & spot & hemi & ms & Hrun & Hw' & _ & _ & Hs & _ & _ &
        _ & _ & _ & _ & Hcam & _); try done.
  exists w', s, cam. split; [done|].
  split; [by rewrite Hw'|]. split; [by rewrite Hw'|]. split; [by rewrite Hs|].
  split; [by rewrite Hw'|]. split; [exact Hcam|].
  rewrite Hw'. done.
Qed.

Lemma initialize_wiring_witness :
  ∃ w' s cam,
    initialize four_assets loaded_page = (Normal tt, w') ∧
    (passes <$> composer w') = Some [RenderPass s cam; FilmPass filmOptions true] ∧
    camera w' = Some cam.
Proof.
  destruct (initialize_wiring four_assets Z.to_nat (λ _, new_Object3D Model) loaded_page)
    as (w' & s & cam & Hrun & _ & Hcomp & _ & Hcam & _).
  - reflexivity.
  - apply four_assets_lookup.
  - apply four_models_lookup.
  - reflexivity.
  - intros i j Hi Hj Heq. lia.
  - exists w', s, cam. split; [done|]. split; [by rewrite Hcomp|done].
Defined.

(** X7. What [initialize] leaves alone: every object that was in the store
    before, the four assets apart, is exactly as it was; all the objects it
    creates are new; and it makes 12000 draws, all of them for the cloud,
    whose particle [j] is built from the draws [6j .. 6j+5]. *)
Theorem initialize_frame assets (rs : Z → nat) (o : Z → Object3D) w :
  viewport w = true →
  (∀ i, (0 ≤ i < 4)%Z → assets !! ("object" +:+ pretty i) = Some (rs i)) →
  (∀ i, (0 ≤ i < 4)%Z → heap w !! rs i = Some (o i)) →
  (∀ i, (0 ≤ i < 4)%Z → parent (o i) = None) →
  (∀ i j, (0 ≤ i < 4)%Z → (0 ≤ j < 4)%Z → rs i = rs j → i = j) →
  ∃ w' p cloud,
    initialize assets w = (Normal tt, w') ∧
    (∀ r, is_Some (heap w !! r) → (∀ i, (0 ≤ i < 4)%Z → r ≠ rs i) →
       heap w' !! r = heap w !! r) ∧
    Z.of_nat (draws w') = (Z.of_nat (draws w) + 12000)%Z ∧
    entropy w' = entropy w ∧
    particles w' = Some p ∧ heap w' !! p = Some cloud ∧ NoDup (children cloud) ∧
    ∀ j m, children cloud !! j = Some m →
      heap w !! m = None ∧
      heap w' !! m = Some (particle (entropy w) (draws w + 6 * j) p).
Proof.
  intros Hview Hassets Hheap Hparent Hinj.
  destruct (initialize_run assets rs o w)
    as (w' & s & p & g & cam & spot & hemi & ms & Hrun & Hw' & _ & Hnew & _ & Hp & _ &
        Hnd & Hms & _ & _ & _ & _ & _ & Hframe); try done.
  exists w', p. eexists. split; [done|]. split; [done|].
  split.
  { rewrite Hw'. cbn [draws]. rewrite Nat2Z.inj_add, Nat2Z.inj_mul, Z2Nat.id by lia. lia. }
  split; [by rewrite Hw'|]. split; [by rewrite Hw'|]. split; [exact Hp|].
  split; [done|]. intros j m Hj. split; [|by apply Hms].
  apply Hnew. apply elem_of_app. right. by apply list_elem_of_lookup_2 in Hj.
Qed.

Lemma initialize_frame_witness :
  ∃ w', initialize four_assets (set_heap (<[9 := new_Object3D Group]> four_models) blank_page)
        = (Normal tt, w') ∧
        heap w' !! 9 = Some (new_Object3D Group).
Proof.
  destruct (initialize_frame four_assets Z.to_nat (λ _, new_Object3D Model)
              (set_heap (<[9 := new_Object3D Group]> four_models) blank_page))
    as (w' & p & cloud & Hrun & Hframe & _).
  - reflexivity.
  - apply four_assets_lookup.
  - intros i Hi. cbn [heap set_heap]. rewrite lookup_insert_ne by lia.
    by apply four_models_lookup.
  - reflexivity.
  - intros i j Hi Hj Heq. lia.
  - exists w'. split; [done|]. rewrite Hframe.
    + reflexivity.
    + cbn [heap set_heap]. rewrite lookup_insert_eq. eauto.
    + intros i Hi. lia.
Defined.

(** ** How [initialize] fails *)

(** [add] changes the store only, and throws only on an object that is not
    there, before changing anything. *)
Lemma wp_add_any g c Q (E : Error → World → Prop) w :
  (∀ h', Q tt (set_heap h' w)) → E (TypeError "object") w → wp (add g c) Q E w.
Proof.
  intros HQ HE. unfold add. destruct (decide (g = c)) as [->|Hne].
  - apply wp_ret. rewrite <- (set_heap_id w). apply HQ.
  - apply wp_bind, wp_deref. destruct (heap w !! c) as [o|]; [|apply HE].
    destruct (parent o) as [p|]; wp_steps; apply HQ.
Qed.

(** A missing asset stops [initialize] while it builds the ring. *)
Lemma initialize_stops_at_missing assets i0 w :
  viewport w = true → (0 ≤ i0 < 4)%Z → assets !! ("object" +:+ pretty i0) = None →
  ∃ what w',
    initialize assets w = (Throw (TypeError what), w') ∧
    camera w' = camera w ∧ (passes <$> composer w') = Some [] ∧
    is_Some (clock w') ∧ is_Some (particles w') ∧
    calls w' = calls w ++ [AppendChild].
Proof.
  intros Hview Hi0 Hmiss.
  assert (wp (initialize assets) (λ _ _, False)
            (λ e w', ∃ what, e = TypeError what ∧
               camera w' = camera w ∧ (passes <$> composer w') = Some [] ∧
               is_Some (clock w') ∧ is_Some (particles w') ∧
               calls w' = calls w ++ [AppendChild]) w) as Hwp.
  2:{ unfold wp in Hwp. destruct (initialize assets w) as [[[]|e] w']; [done|].
      destruct Hwp as (what & -> & H). by exists what, w'. }
  unfold initialize. wp_steps. rename r into s, Hr into Hs.
  rewrite Hview. cbv iota. wp_steps.
  apply wp_createParticleCloud. intros h ms p (Hp & _ & _ & _) _.
  assert (Hfp : (<[s := new_Object3D (Scene 16053492 0.005)]> (heap w)) !! p = None)
    by apply fresh_lookup.
  clearbody p. apply lookup_insert_None in Hfp as [_ Hsp]. wp_steps.
  eapply wp_add_orphan; [done|world_simpl; exact Hp|done|].
  wp_steps. rename r into g.
  match goal with |- wp _ _ _ ?w0 => set (w3 := w0) end.
  unfold for_. change (Z.to_nat (4 - 0)) with 4.
  apply (wp_for_from (λ k (_ : R) w', (Z.of_nat k ≤ i0)%Z ∧ ∃ h', w' = set_heap h' w3)).
  - split; [lia|]. eexists. unfold w3. reflexivity.
  - intros k angle w' Hk (Hle & h' & ->). rewrite Z.add_0_l.
    wp_step. apply wp_defined.
    destruct (assets !! ("object" +:+ pretty (Z.of_nat k))) as [obj|] eqn:Hobj.
    + assert (Z.of_nat k ≠ i0) by (intros <-; congruence).
      wp_steps. apply wp_add_any.
      * intros h''. wp_steps. split; [lia|]. eexists. reflexivity.
      * unfold w3. world_simpl. eexists. repeat split; eauto.
    + unfold w3. world_simpl. eexists. repeat split; eauto.
  - intros angle w' (Hle & _). lia.
Qed.

(** X8. When one of the keys ["object0"] .. ["object3"] is missing from the
    assets, [initialize] throws a [TypeError] in the middle of the ring's
    construction: the clock, the renderer and the cloud exist by then, but
    the ring is not in the scene, the composer has no pass, no camera is
    bound and the resize listener is not registered. *)
Theorem initialize_missing_asset assets i0 w :
  viewport w = true → (0 ≤ i0 < 4)%Z → assets !! ("object" +:+ pretty i0) = None →
  ∃ what w',
    initialize assets w = (Throw (TypeError what), w') ∧
    camera w' = camera w ∧ (passes <$> composer w') = Some [] ∧
    is_Some (clock w') ∧ is_Some (particles w') ∧
    calls w' = calls w ++ [AppendChild].
Proof. apply initialize_stops_at_missing. Qed.

Lemma initialize_missing_asset_witness :
  ∃ what w',
    initialize (delete "object2" four_assets) loaded_page = (Throw (TypeError what), w') ∧
    camera w' = None.
Proof.
  destruct (initialize_missing_asset (delete "object2" four_assets) 2 loaded_page)
    as (what & w' & Hrun & Hcam & _).
  - reflexivity.
  - lia.
  - vm_compute. reflexivity.
  - exists what, w'. split; [exact Hrun|exact Hcam].
Defined.

(** X9. On a page without the viewport element [initialize] throws a
    [TypeError] when it tries to attach the renderer: by then it has made
    the clock and a scene that nothing refers to, and nothing else: no
    draw, no composer, no cloud, no ring, no camera, no listener. *)
Theorem initialize_without_viewport assets w :
  viewport w = false →
  ∃ s, heap w !! s = None ∧
    initialize assets w =
      (Throw (TypeError "viewport"),
       set_heap (<[s := new_Object3D (Scene 0xf4f4f4 0.005)]> (heap w))
         (set_clock (Some {| queries := 0 |}) w)).
Proof.
  intros Hview.
  assert (wp (initialize assets) (λ _ _, False)
            (λ e w', ∃ s, heap w !! s = None ∧ e = TypeError "viewport" ∧
               w' = set_heap (<[s := new_Object3D (Scene 0xf4f4f4 0.005)]> (heap w))
                      (set_clock (Some {| queries := 0 |}) w)) w) as Hwp.
  2:{ unfold wp in Hwp. destruct (initialize assets w) as [[[]|e] w']; [done|].
      destruct Hwp as (s & Hs & -> & ->). by exists s. }
  unfold initialize. wp_steps. rewrite Hview. cbv iota.
  apply wp_throw. by exists r.
Qed.

Lemma initialize_without_viewport_witness :
  ∃ w', initialize four_assets (set_heap four_models
          {| clock := None; composer := None; camera := None; objects := None;
             particles := None; id := 0; heap := ∅; entropy := λ _, 0%R; draws := 0;
             ticks := λ _, 0%R; innerWidth := 800; innerHeight := 600;
             viewport := false; now := 0; timers := []; next_handle := 1; calls := [] |})
        = (Throw (TypeError "viewport"), w').
Proof.
  edestruct (initialize_without_viewport four_assets) as (s & _ & Hrun);
    [|eexists; exact Hrun].
  reflexivity.
Defined.

(** ** The resize handler under arbitrary traffic *)

Lemma spaced_snoc gap ts d :
  spaced gap ts → Forall (λ t, (t + gap ≤ d)%Z) ts → spaced gap (ts ++ [d]).
Proof.
  induction ts as [|t1 [|t2 ts] IH]; intros Hsp Hall; [done| |].
  - apply Forall_cons in Hall as [H1 _]. done.
  - destruct Hsp as [H12 Hsp]. apply Forall_cons in Hall as [_ Hall].
    split; [done|]. by apply IH.
Qed.

Lemma with_aspect_twice a b o : with_aspect a (with_aspect b o) = with_aspect a o.
Proof. destruct o as [pos rot par cs []]; done. Qed.

Lemma alter_with_aspect_twice a b cam (h : gmap nat Object3D) :
  alter (with_aspect a) cam (alter (with_aspect b) cam h) = alter (with_aspect a) cam h.
Proof.
  rewrite alter_alter_eq. apply alter_ext. intros o _. apply with_aspect_twice.
Qed.

(** The queued call runs. *)
Lemma wp_fire_bound n d c cam Q E w :
  composer w = Some c → camera w = Some cam →
  Q tt (set_id 0
          (log [TimerFired d; UpdateProjectionMatrix]
             (set_heap (alter (with_aspect (IZR (innerWidth w) / IZR (innerHeight w))) cam
                          (heap w))
                (set_composer (Some (setSize (innerWidth w) (innerHeight w) c))
                   (set_now (Z.max (now w) d) w))))) →
  wp (fire (timer_of n d)) Q E w.
Proof.
  intros Hc Hcam HQ. apply wp_fire. cbn [due arg timer_of].
  unfold handleResize. cbn [target target_innerWidth target_innerHeight].
  wp_steps. rewrite Hc. apply wp_defined. wp_steps.
  rewrite Hcam. apply wp_defined. wp_steps.
  match goal with |- Q tt ?w1 => match type of HQ with Q tt ?w2 =>
    replace w1 with w2; [exact HQ|] end end.
  apply World_ext; world_simpl; try done. by rewrite <- app_assoc.
Qed.

Lemma handling_calls_log cs w :
  handling_calls (log cs w)
  = handling_calls w ++ omap (λ c, match c with TimerFired t => Some t | _ => None end) cs.
Proof. unfold handling_calls, log. cbn [calls set_calls]. apply omap_app. Qed.

(** Time passes until [T]: a queued call that is due runs, and leaves the
    composer and the camera agreeing with the window. *)
Lemma advance_throttled c0 cam w0 k T w :
  throttled c0 cam w0 k w →
  wp (advance T)
     (λ _ w', throttled c0 cam w0 k w' ∧ now w' = Z.max (now w) T ∧
              innerWidth w' = innerWidth w ∧ innerHeight w' = innerHeight w ∧
              (timers w' = [] ∨
               timers w' = timers w ∧ ∀ n d, timers w = [timer_of n d] → (T < d)%Z) ∧
              ∃ ts, calls w' = calls w ++ handled ts)
     never w.
Proof.
  intros (Hcam & Hwr & Hsp & Hle & Hcnt & Hst).
  unfold advance. wp_steps.
  destruct Hst as [(Hid & Htm & Hk)|(n & d & Hid & Htm & Hd & Hall)].
  - rewrite Htm, !filter_nil. cbn [fire_all]. wp_steps.
    split; [|repeat split; world_simpl; try done;
               [by left|exists []; symmetry; apply app_nil_r]].
    unfold throttled, written, synced, is_pending, handling_calls in *.
    world_simpl. rewrite Htm in Hcnt. repeat split; try done.
    + eapply Forall_impl; [exact Hle|]. intros t Ht. cbv beta in *. lia.
    + left. done.
  - rewrite Htm, !filter_cons, !filter_nil. cbn [due timer_of].
    destruct (decide (d ≤ T)%Z) as [Hdue|Hdue].
    + rewrite (decide_False (P := ¬ (d ≤ T)%Z)) by lia.
      cbn [fire_all]. wp_step.
      assert (∃ c, composer w = Some c ∧ ∀ a b, setSize a b c = setSize a b c0)
        as (c & Hc & Hcc).
      { destruct Hwr as [[Hc _]|(a & b & Hc & _)]; eexists; (split; [exact Hc|done]). }
      eapply (wp_fire_bound n d c cam); [by world_simpl|by world_simpl|].
      world_simpl. wp_steps.
      assert (Hheap : alter (with_aspect (IZR (innerWidth w) / IZR (innerHeight w))) cam
                        (heap w)
                      = alter (with_aspect (IZR (innerWidth w) / IZR (innerHeight w))) cam
                          (heap w0)).
      { destruct Hwr as [[_ ->]|(a & b & _ & ->)]; [done|].
        apply alter_with_aspect_twice. }
      split; [|repeat split; world_simpl; try done; [lia|by left|by exists [d]]].
      unfold throttled, written, synced, is_pending, handling_calls in *.
      world_simpl. rewrite Htm in Hcnt. cbn [length] in Hcnt.
      rewrite omap_app. cbn [omap list_omap]. rewrite Hcc, Hheap.
      repeat split; try done.
      * right. by eexists _, _.
      * by apply spaced_snoc.
      * apply Forall_app. split.
        -- eapply Forall_impl; [exact Hle|]. intros t Ht. cbv beta in *. lia.
        -- apply Forall_singleton. lia.
      * rewrite length_app. cbn [length]. lia.
      * left. repeat split; try done. by right.
    + rewrite (decide_True (P := ¬ (d ≤ T)%Z)) by lia.
      cbn [fire_all]. wp_steps.
      split; [|repeat split; world_simpl; try done;
               [right; split; [done|]; intros n' d' [= _ ->]; lia
               |exists []; symmetry; apply app_nil_r]].
      unfold throttled, written, synced, is_pending, handling_calls in *.
      world_simpl. rewrite Htm in Hcnt. repeat split; try done.
      * eapply Forall_impl; [exact Hle|]. intros t Ht. cbv beta in *. lia.
      * right. exists n, d. repeat split; try done. lia.
Qed.

(** A resize event: whatever the handler was doing, one call is queued
    afterwards, and the window has the size of the event. *)
Lemma resize_throttled c0 cam w0 k ev w :
  throttled c0 cam w0 k w →
  wp (resize ev)
     (λ _ w', throttled c0 cam w0 (S k) w' ∧ is_pending w' ∧
              now w' = Z.max (now w) ev.1 ∧
              innerWidth w' = ev.2.1 ∧ innerHeight w' = ev.2.2 ∧
              ∃ ts, calls w' = calls w ++ handled ts)
     never w.
Proof.
  intros Hth. unfold resize. wp_step.
  eapply wp_mono; [by apply (advance_throttled c0 cam w0 k)| |done].
  intros [] w1 ((Hcam & Hwr & Hsp & Hle & Hcnt & Hst) & Hnow & _ & _ & _ & ts & Hlog).
  cbv beta.
  wp_steps. unfold onResize. wp_steps. world_simpl.
  destruct Hst as [(Hid & Htm & Hk)|(n & d & Hid & Htm & Hd & Hall)].
  - rewrite Hid. cbn [Z.eqb]. wp_step. apply wp_setTimeout. world_simpl.
    wp_steps. rewrite Htm. cbn [app].
    assert (Hp : is_pending
                   (set_id (Z.pos (next_handle w1))
                      (set_timers [{| handle := next_handle w1; due := (now w1 + 66)%Z;
                                      arg := {| target := window |} |}]
                         (Pos.succ (next_handle w1))
                         (set_window ev.2.1 ev.2.2 w1)))).
    { exists (next_handle w1), (now w1 + 66)%Z.
      unfold handling_calls. world_simpl. repeat split; try done.
      eapply Forall_impl; [exact Hle|]. intros t Ht. cbv beta in *. lia. }
    repeat split; world_simpl; try done.
    + unfold handling_calls in *. world_simpl. rewrite Htm in Hcnt.
      cbn [length] in *. lia.
    + by right.
    + by exists ts.
  - rewrite Hid. cbn [Z.eqb]. wp_steps.
    assert (Hp : is_pending (set_window ev.2.1 ev.2.2 w1)).
    { exists n, d. unfold handling_calls. world_simpl. done. }
    repeat split; world_simpl; try done.
    + unfold handling_calls in *. world_simpl. lia.
    + by right.
    + by exists ts.
Qed.

Lemma handled_app a b : handled (a ++ b) = handled a ++ handled b.
Proof. unfold handled. apply flat_map_app. Qed.

Lemma handled_no_uncaught w0 w ts e :
  calls w = calls w0 ++ handled ts → Uncaught e ∈ calls w → Uncaught e ∈ calls w0.
Proof.
  intros -> [Hin|Hin]%elem_of_app; [done|]. exfalso.
  induction ts as [|t ts IH]; [by apply elem_of_nil in Hin|].
  cbn in Hin. apply elem_of_cons in Hin as [?|Hin]; [done|].
  apply elem_of_cons in Hin as [?|Hin]; [done|]. by apply IH.
Qed.

Lemma handling_calls_handled w0 w ts :
  calls w = calls w0 ++ handled ts → handling_calls w = handling_calls w0 ++ ts.
Proof.
  intros Hlog. unfold handling_calls. rewrite Hlog, omap_app. f_equal. clear Hlog.
  induction ts as [|t ts IH]; [done|]. cbn. f_equal. exact IH.
Qed.

Lemma dispatch_throttled c0 cam w0 M evs : ∀ k w,
  throttled c0 cam w0 k w → (now w ≤ M)%Z → Forall (λ ev, (ev.1 ≤ M)%Z) evs →
  wp (dispatch evs)
     (λ _ w', throttled c0 cam w0 (k + length evs) w' ∧ (now w' ≤ M)%Z ∧
              (∀ ev, last evs = Some ev →
                 is_pending w' ∧ innerWidth w' = ev.2.1 ∧ innerHeight w' = ev.2.2) ∧
              ∃ ts, calls w' = calls w ++ handled ts)
     never w.
Proof.
  induction evs as [|e evs IH]; intros k w Hth Hnow Hevs.
  - apply wp_ret. cbn [length]. rewrite Nat.add_0_r.
    split; [done|]. split; [done|]. split; [by intros ev Hev|].
    exists []. symmetry. apply app_nil_r.
  - apply Forall_cons in Hevs as [He Hevs]. cbn [dispatch]. apply wp_bind.
    eapply wp_mono; [by apply (resize_throttled c0 cam w0 k)| |done].
    intros [] w1 (Hth1 & Hp1 & Hnow1 & Hw1 & Hh1 & ts1 & Hlog1). cbv beta.
    destruct evs as [|e' evs].
    + apply wp_ret. cbn [length]. rewrite Nat.add_1_r.
      split; [done|]. split; [lia|]. split; [|by exists ts1].
      intros ev Hev. cbn in Hev. injection Hev as <-. done.
    + eapply wp_mono; [apply (IH (S k) w1); [done|lia|done]| |done].
      intros [] w2 (Hth2 & Hnow2 & Hlast & ts2 & Hlog2). cbv beta.
      change (length (e :: e' :: evs)) with (S (length (e' :: evs))).
      rewrite Nat.add_succ_r. split; [done|]. split; [done|]. split; [exact Hlast|].
      exists (ts1 ++ ts2). by rewrite Hlog2, Hlog1, handled_app, app_assoc.
Qed.

Lemma throttled_start w c cam :
  id w = 0%Z → timers w = [] → composer w = Some c → camera w = Some cam →
  handling_calls w = [] → throttled c cam w 0 w.
Proof.
  intros Hid Htm Hc Hcam Hcalls. unfold throttled. rewrite Hcalls, Htm.
  repeat split; try done.
  - by left.
  - left. repeat split; try done. by left.
Qed.

(** The latest of the time [t0] and the times of the events [evs]. *)
Lemma latest_bound (t0 : Z) (evs : list (Z * (Z * Z))) :
  ∃ M, (t0 ≤ M)%Z ∧ Forall (λ ev, (ev.1 ≤ M)%Z) evs.
Proof.
  induction evs as [|e evs (M & H0 & Hevs)].
  - exists t0. split; [lia|done].
  - exists (Z.max M e.1). split; [lia|]. apply Forall_cons. split; [lia|].
    eapply Forall_impl; [exact Hevs|]. intros ev Hev. cbv beta in *. lia.
Qed.

(** X10. Once the composer and the camera are bound, no sequence of resize
    events, at whatever times, makes [onResize] or [handleResize] throw,
    queue a second call or run [handleResize] twice within 66 ms.  Every
    queued call that ran completed: all that is added to the log is, per
    call, the timer firing followed by the projection update, so no
    exception escaped a call.  The calls made are at least 66 ms apart,
    there are never more calls made or queued than events received, at
    most one call is queued, and [id] is 0 exactly when none is. *)
Theorem resize_calls_spaced w c cam evs T :
  id w = 0%Z → timers w = [] → composer w = Some c → camera w = Some cam →
  handling_calls w = [] →
  ∃ w',
    (dispatch evs;; advance T) w = (Normal tt, w') ∧
    calls w' = calls w ++ handled (handling_calls w') ∧
    (∀ e, Uncaught e ∈ calls w' → Uncaught e ∈ calls w) ∧
    spaced 66 (handling_calls w') ∧
    length (handling_calls w') + length (timers w') ≤ length evs ∧
    length (timers w') ≤ 1 ∧
    (id w' = 0%Z ↔ timers w' = []).
Proof.
  intros Hid Htm Hc Hcam Hcalls.
  destruct (latest_bound (now w) evs) as (M & HM & Hevs).
  destruct (wp_normal (dispatch evs;; advance T)
              (λ _ w', throttled c cam w (length evs) w' ∧
                       ∃ ts, calls w' = calls w ++ handled ts) w)
    as ([] & w' & Hrun & Hth & ts & Hlog).
  - apply wp_bind.
    eapply wp_mono;
      [apply (dispatch_throttled c cam w M evs 0 w); [by apply throttled_start|done..]| |done].
    intros [] w1 (Hth1 & _ & _ & ts1 & Hlog1). cbv beta. cbn [Nat.add] in Hth1.
    eapply wp_mono; [by apply (advance_throttled c cam w (length evs))| |done].
    intros [] w2 (Hth2 & _ & _ & _ & _ & ts2 & Hlog2). cbv beta. split; [done|].
    exists (ts1 ++ ts2). by rewrite Hlog2, Hlog1, handled_app, app_assoc.
  - exists w'. split; [done|].
    pose proof (handling_calls_handled w w' ts Hlog) as Hts.
    rewrite Hcalls in Hts. cbn [app] in Hts.
    split; [by rewrite Hts|]. split; [intros e; by apply (handled_no_uncaught w w' ts e)|].
    destruct Hth as (_ & _ & Hsp & _ & Hcnt & Hst). rewrite Hcalls in Hcnt.
    cbn [length Nat.add] in Hcnt. repeat split; try done.
    all: destruct Hst as [(Hid' & Htm' & _)|(n & d & Hid' & Htm' & _)];
      rewrite ?Htm', ?Hid'; cbn [length]; try done; lia.
Qed.

Lemma resize_calls_spaced_witness :
  ∃ w',
    (dispatch [(0, (800, 600)); (50, (810, 600)); (100, (820, 600))]%Z;; advance 120)
      running_page = (Normal tt, w') ∧
    spaced 66 (handling_calls w') ∧
    length (handling_calls w') + length (timers w') ≤ 3.
Proof.
  destruct (resize_calls_spaced running_page
              {| renderer := {| antialias := false; alpha := true;
                                shadowMapEnabled := false; canvasSize := (800, 600)%Z;
                                clearColor := 0xf4f4f4 |};
                 passes := [] |}
              6 [(0, (800, 600)); (50, (810, 600)); (100, (820, 600))]%Z 120)
    as (w' & Hrun & _ & _ & Hsp & Hcnt & _).
  - reflexivity.
  - reflexivity.
  - reflexivity.
  - reflexivity.
  - reflexivity.
  - exists w'. split; [exact Hrun|]. split; [exact Hsp|exact Hcnt].
Defined.

(** After a quiet period the queued call has run, on the window as the
    last event left it. *)
Lemma dispatch_settles w c cam evs ev T :
  id w = 0%Z → timers w = [] → composer w = Some c → camera w = Some cam →
  handling_calls w = [] →
  last evs = Some ev → (0 < ev.2.2)%Z →
  (now w + 66 ≤ T)%Z → Forall (λ e, (e.1 + 66 ≤ T)%Z) evs →
  ∃ w',
    (dispatch evs;; advance T) w = (Normal tt, w') ∧
    id w' = 0%Z ∧ timers w' = [] ∧
    composer w' = Some (setSize ev.2.1 ev.2.2 c) ∧ camera w' = Some cam ∧
    heap w' = alter (with_aspect (IZR ev.2.1 / IZR ev.2.2)) cam (heap w) ∧
    ∃ ts, calls w' = calls w ++ handled ts.
Proof.
  intros Hid Htm Hc Hcam Hcalls Hlast Hpos HT Hevs.
  destruct (wp_normal (dispatch evs;; advance T)
              (λ _ w', id w' = 0%Z ∧ timers w' = [] ∧
                       composer w' = Some (setSize ev.2.1 ev.2.2 c) ∧
                       camera w' = Some cam ∧
                       heap w' = alter (with_aspect (IZR ev.2.1 / IZR ev.2.2)) cam (heap w) ∧
                       ∃ ts, calls w' = calls w ++ handled ts) w)
    as ([] & w' & Hrun & H); [|by exists w'].
  apply wp_bind.
  eapply wp_mono;
    [apply (dispatch_throttled c cam w (T - 66) evs 0 w);
       [by apply throttled_start|lia|]| |done].
  { eapply Forall_impl; [exact Hevs|]. intros e He. cbv beta in *. lia. }
  intros [] w1 (Hth1 & Hnow1 & Hl & ts1 & Hlog1). cbv beta.
  destruct (Hl ev Hlast) as ((n & d & Hid1 & Htm1 & Hd & _) & Hw1 & Hh1).
  eapply wp_mono; [by apply (advance_throttled c cam w (0 + length evs))| |done].
  intros [] w2 ((Hcam2 & _ & _ & _ & _ & Hst) & _ & Hw2 & Hh2 & Hleft & ts2 & Hlog2).
  cbv beta.
  assert (∃ ts, calls w2 = calls w ++ handled ts) as Hlog.
  { exists (ts1 ++ ts2). by rewrite Hlog2, Hlog1, handled_app, app_assoc. }
  assert (Htm2 : timers w2 = []).
  { destruct Hleft as [Htm2|[_ Hlate]]; [done|].
    specialize (Hlate n d Htm1). lia. }
  destruct Hst as [(Hid2 & _ & [Hk|[Hc2 Hheap2]])|(n2 & d2 & _ & Htm2' & _)].
  - destruct evs; [done|]. cbn [length] in Hk. lia.
  - rewrite Hw2, Hh2, Hw1, Hh1 in Hc2, Hheap2. done.
  - by rewrite Htm2 in Htm2'.
Qed.

(** X11. The last event wins.  Once the composer and the camera are bound,
    after any sequence of resize events and 66 ms of quiet the handler is
    idle again, and the composer has the size and the camera the aspect
    ratio of the last event, whatever calls were made on the way. *)
Theorem resize_last_event_wins w c cam evs ev T :
  id w = 0%Z → timers w = [] → composer w = Some c → camera w = Some cam →
  handling_calls w = [] →
  last evs = Some ev → (0 < ev.2.2)%Z →
  (now w + 66 ≤ T)%Z → Forall (λ e, (e.1 + 66 ≤ T)%Z) evs →
  ∃ w',
    (dispatch evs;; advance T) w = (Normal tt, w') ∧
    id w' = 0%Z ∧ timers w' = [] ∧
    composer w' = Some (setSize ev.2.1 ev.2.2 c) ∧ camera w' = Some cam ∧
    heap w' = alter (with_aspect (IZR ev.2.1 / IZR ev.2.2)) cam (heap w).
Proof.
  intros Hid Htm Hc Hcam Hcalls Hlast Hpos HT Hevs.
  destruct (dispatch_settles w c cam evs ev T)
    as (w' & Hrun & Hid' & Htm' & Hc' & Hcam' & Hheap' & _); try done.
  by exists w'.
Qed.

Lemma resize_last_event_wins_witness :
  ∃ w',
    (dispatch [(0, (800, 600)); (50, (810, 600)); (100, (820, 600))]%Z;; advance 166)
      running_page = (Normal tt, w') ∧
    (canvasSize <$> (renderer <$> composer w')) = Some (820, 600)%Z.
Proof.
  destruct (resize_last_event_wins running_page
              {| renderer := {| antialias := false; alpha := true;
                                shadowMapEnabled := false; canvasSize := (800, 600)%Z;
                                clearColor := 0xf4f4f4 |};
                 passes := [] |}
              6 [(0, (800, 600)); (50, (810, 600)); (100, (820, 600))]%Z
              (100, (820, 600))%Z 166)
    as (w' & Hrun & _ & _ & Hc & _).
  - reflexivity.
  - reflexivity.
  - reflexivity.
  - reflexivity.
  - reflexivity.
  - reflexivity.
  - reflexivity.
  - cbn. lia.
  - repeat (apply Forall_cons_2; [cbn; lia|]). apply Forall_nil_2.
  - exists w'. split; [exact Hrun|]. by rewrite Hc.
Defined.

(** ** Frame after frame *)

Lemma turn_twice a b (x : option Object3D) :
  with_rotation (Euler.add_y b) <$> (with_rotation (Euler.add_y a) <$> x)
  = with_rotation (Euler.add_y (a + b)) <$> x.
Proof.
  destruct x as [[pos [ex ey ez] par cs pl]|]; [|done]. cbn.
  unfold with_rotation, Euler.add_y. cbn. do 3 f_equal. lra.
Qed.

Lemma turn_zero (x : option Object3D) : with_rotation (Euler.add_y 0) <$> x = x.
Proof.
  destruct x as [[pos [ex ey ez] par cs pl]|]; [|done]. cbn.
  unfold with_rotation, Euler.add_y. cbn. do 3 f_equal. lra.
Qed.

Lemma spin_add cs p a b r : (spin cs p a r + spin cs p b r = spin cs p (a + b) r)%R.
Proof. unfold spin. repeat case_decide; lra. Qed.

(** One frame turns every object by its [spin]. *)
Lemma render_spin w c g p comp grp :
  clock w = Some c → objects w = Some g → particles w = Some p →
  composer w = Some comp → heap w !! g = Some grp →
  NoDup (children grp) → p ∉ children grp →
  let d := ticks w (queries c) in
  ∃ h',
    render None w =
      (Normal tt,
       set_heap h' (set_clock (Some {| queries := S (queries c) |})
                      (set_calls (calls w ++ [RequestAnimationFrame; ComposerRender d]) w))) ∧
    ∀ r, h' !! r = with_rotation (Euler.add_y (spin (children grp) p d r)) <$> heap w !! r.
Proof.
  intros Hc Hg Hp Hcomp Hgrp Hnd Hpc d.
  destruct (render_run None w c g p comp grp) as (h' & Hrun & Ht); try done.
  eexists. split; [exact Hrun|]. intros r. unfold spin.
  destruct (decide (r ∈ children grp)) as [Hr|Hr].
  - rewrite lookup_alter_ne by (by intros ->). by rewrite Ht, decide_True.
  - destruct (decide (r = p)) as [->|Hrp].
    + by rewrite lookup_alter_eq, Ht, decide_False.
    + rewrite lookup_alter_ne by done. by rewrite Ht, decide_False, turn_zero.
Qed.

Lemma frames_run n : ∀ w c g p comp grp,
  clock w = Some c → objects w = Some g → particles w = Some p →
  composer w = Some comp → heap w !! g = Some grp →
  NoDup (children grp) → p ∉ children grp →
  ∃ h',
    frames n w =
      (Normal tt,
       set_heap h'
         (set_clock (Some {| queries := queries c + n |})
            (set_calls (calls w ++
                        flat_map (λ q, [RequestAnimationFrame; ComposerRender (ticks w q)])
                                 (seq (queries c) n)) w))) ∧
    ∀ r, h' !! r =
         with_rotation (Euler.add_y (spin (children grp) p (elapsed (ticks w) (queries c) n) r))
           <$> heap w !! r.
Proof.
  induction n as [|n IH]; intros w c g p comp grp Hc Hg Hp Hcomp Hgrp Hnd Hpc.
  - exists (heap w). split.
    + cbn [frames ret]. f_equal. apply World_ext; world_simpl; try done.
      * by rewrite Nat.add_0_r, Hc; destruct c.
      * by rewrite app_nil_r.
    + intros r. cbn [elapsed]. unfold spin.
      repeat case_decide; rewrite ?Rmult_0_l; by rewrite turn_zero.
  - destruct (render_spin w c g p comp grp) as (h1 & Hrun1 & Hh1); try done.
    set (w1 := set_heap h1 _) in Hrun1.
    destruct (IH w1 {| queries := S (queries c) |} g p comp
                (with_rotation (Euler.add_y (spin (children grp) p (ticks w (queries c)) g)) grp))
      as (h' & Hrun & Hh'); try done.
    { subst w1. world_simpl. by rewrite Hh1, Hgrp. }
    cbn [queries] in Hrun, Hh'. exists h'. split.
    + cbn [frames]. unfold bind. rewrite Hrun1, Hrun. f_equal.
      subst w1. apply World_ext; world_simpl; try done.
      * do 2 f_equal. lia.
      * rewrite <- app_assoc. done.
    + intros r. rewrite Hh'. subst w1. world_simpl. rewrite Hh1, turn_twice.
      cbn [children with_rotation elapsed]. by rewrite spin_add.
Qed.

(** X12. Over [n] frames the rotations add up.  [render] completes
    normally in each frame; at the end every ring member has turned about
    [y] by half of what the clock reported in total, the particle group by
    a hundredth of it, and no other object has changed; the clock has been
    queried once per frame, and each frame asked for the next one before
    the composer rendered it. *)
Theorem render_frames n w c g p comp grp :
  clock w = Some c → objects w = Some g → particles w = Some p →
  composer w = Some comp → heap w !! g = Some grp →
  NoDup (children grp) → p ∉ children grp →
  let total := elapsed (ticks w) (queries c) n in
  ∃ w',
    frames n w = (Normal tt, w') ∧
    clock w' = Some {| queries := queries c + n |} ∧
    calls w' = calls w ++
               flat_map (λ q, [RequestAnimationFrame; ComposerRender (ticks w q)])
                        (seq (queries c) n) ∧
    (∀ r o, r ∈ children grp → heap w !! r = Some o →
       heap w' !! r = Some (with_rotation (Euler.add_y (total * 0.5)) o)) ∧
    (∀ o, heap w !! p = Some o →
       heap w' !! p = Some (with_rotation (Euler.add_y (total * 0.01)) o)) ∧
    (∀ r, r ∉ children grp → r ≠ p → heap w' !! r = heap w !! r).
Proof.
  intros Hc Hg Hp Hcomp Hgrp Hnd Hpc total.
  destruct (frames_run n w c g p comp grp) as (h' & Hrun & Hh'); try done.
  eexists. split; [exact Hrun|]. world_simpl. split; [done|]. split; [done|].
  unfold spin in Hh'. split; [|split].
  - intros r o Hr Ho. by rewrite Hh', decide_True, Ho.
  - intros o Ho. by rewrite Hh', decide_False, decide_True, Ho.
  - intros r Hr Hrp. by rewrite Hh', !decide_False, turn_zero.
Qed.

Lemma render_frames_witness :
  ∃ w', frames 3 running_page = (Normal tt, w') ∧
        heap w' !! 0 = Some (with_rotation (Euler.add_y ((0.016 + (0.016 + (0.016 + 0))) * 0.5))
                               (new_Object3D Model)).
Proof.
  destruct (render_frames 3 running_page {| queries := 0 |} 4 5
              {| renderer := {| antialias := false; alpha := true;
                                shadowMapEnabled := false; canvasSize := (800, 600)%Z;
                                clearColor := 0xf4f4f4 |};
                 passes := [] |}
              (group_of [0; 1; 2; 3]))
    as (w' & Hrun & _ & _ & Hring & _).
  - reflexivity.
  - reflexivity.
  - reflexivity.
  - reflexivity.
  - reflexivity.
  - cbn. compute_done.
  - cbn. compute_done.
  - exists w'. split; [exact Hrun|]. apply Hring; [cbn; compute_done|reflexivity].
Defined.

(** ** Callbacks in any order *)

Lemma assets_reject e l : assets (reject e l) = assets l.
Proof. unfold reject. by destruct (promise l). Qed.

Lemma settle_assets_other ev i l :
  (∀ obj, ev ≠ Loaded i obj) →
  assets (settle ev l) !! ("object" +:+ pretty i) = assets l !! ("object" +:+ pretty i).
Proof.
  intros Hev. destruct ev as [j obj|item n t|url]; cbn.
  - apply lookup_insert_ne. intros ->%key_inj. by apply (Hev obj).
  - destruct (n =? t)%Z; [by rewrite assets_resolve|done].
  - by rewrite assets_reject.
Qed.

Lemma settle_all_assets i evs : ∀ l,
  assets (settle_all evs l) !! ("object" +:+ pretty i)
  = match last (deliveries i evs) with
    | Some obj => Some obj
    | None => assets l !! ("object" +:+ pretty i)
    end.
Proof.
  induction evs as [|ev evs IH]; intros l; [done|].
  change (settle_all (ev :: evs) l) with (settle_all evs (settle ev l)).
  rewrite IH. destruct ev as [j obj|item n t|url]; cbn [deliveries omap list_omap].
  - destruct (decide (j = i)) as [->|Hne].
    + fold (deliveries i evs). rewrite last_cons.
      destruct (last (deliveries i evs)); [done|]. cbn. apply lookup_insert_eq.
    + fold (deliveries i evs). destruct (last (deliveries i evs)); [done|].
      apply settle_assets_other. intros obj' [= ->]. done.
  - fold (deliveries i evs). destruct (last (deliveries i evs)); [done|].
    by apply settle_assets_other.
  - fold (deliveries i evs). destruct (last (deliveries i evs)); [done|].
    by apply settle_assets_other.
Qed.

(** X13. Whatever the loader calls back, and in whatever order, [main] ends
    normally, and under the key of request [i] the assets hold the object
    that was delivered last for [i]; the key is absent if none was.
    Deliveries for other requests, progress reports and failures do not
    touch it, before or after the promise has settled. *)
Theorem assets_hold_last_delivery evs i w :
  ∃ l w', main evs w = (Normal l, w') ∧
          assets l !! ("object" +:+ pretty i) = last (deliveries i evs).
Proof.
  rewrite main_unfold.
  destruct (deliver_all_loading evs loading0 (log startup_calls w)) as [w' Hrun].
  exists (settle_all evs loading0), w'. split; [done|].
  rewrite settle_all_assets. by destruct (last (deliveries i evs)).
Qed.

(** While the promise stays pending, the callbacks only log. *)
Lemma deliver_all_still_pending evs : ∀ l w,
  promise (settle_all evs l) = Pending →
  promise l = Pending ∧
  deliver_all evs l w = (Normal (settle_all evs l), log (console_of evs) w).
Proof.
  induction evs as [|ev evs IH]; intros l w Hp.
  - split; [done|]. cbn. by rewrite log_nil.
  - change (settle_all (ev :: evs) l) with (settle_all evs (settle ev l)) in *.
    destruct (IH (settle ev l) (log (console_of [ev]) w) Hp) as [Hp1 Hrun].
    assert (promise l = Pending) as Hp0.
    { destruct (promise l) eqn:E; [done|..];
        rewrite settle_settled in Hp1 by congruence; congruence. }
    split; [done|].
    cbn [deliver_all]. unfold bind. rewrite deliver_settle, Hp0, Hp1. cbv zeta.
    rewrite Hrun, log_log, <- console_of_cons. done.
Qed.

Lemma main_pending pre w l0 w0 :
  main pre w = (Normal l0, w0) → promise l0 = Pending →
  l0 = settle_all pre loading0 ∧ w0 = log (startup_calls ++ console_of pre) w.
Proof.
  intros Hrun Hp. rewrite main_unfold in Hrun.
  destruct (deliver_all_loading pre loading0 (log startup_calls w)) as [w1 Hrun1].
  assert (l0 = settle_all pre loading0) as -> by congruence.
  destruct (deliver_all_still_pending pre loading0 (log startup_calls w) Hp) as [_ Hrun2].
  rewrite Hrun2, log_log in Hrun. split; [done|]. congruence.
Qed.



(** X15. The promise is fulfilled on the counts alone.  While the promise
    is pending, a progress report whose two counts are equal fulfils it
    even if a model is missing from the assets; [initialize] then starts,
    throws a [TypeError] at the missing model, and the error is logged by
    the [catch] of the chain: no camera is bound, no listener registered,
    no frame requested, and later callbacks only log. *)
Theorem resolve_on_counts_alone pre item n post i0 w l0 w0 :
  main pre w = (Normal l0, w0) → promise l0 = Pending →
  (0 ≤ i0 < 4)%Z → assets l0 !! ("object" +:+ pretty i0) = None →
  viewport w = true →
  ∃ l what w',
    main (pre ++ Progress item n n :: post) w = (Normal l, w') ∧
    promise l = Fulfilled ∧
    calls w' = calls w0 ++ [AppendChild; ConsoleError (TypeError what)] ++ console_of post ∧
    camera w' = camera w0.
Proof.
  intros Hrun Hp Hi0 Hmiss Hview.
  destruct (main_pending pre w l0 w0 Hrun Hp) as [Hl0 Hw0].
  rewrite main_unfold in *. rewrite deliver_all_app, Hrun.
  cbn [deliver_all]. unfold bind. rewrite deliver_settle, Hp.
  cbn [settle console_of omap list_omap]. rewrite Z.eqb_refl, log_nil.
  assert (promise (resolve l0) = Fulfilled) as Hful by (unfold resolve; by rewrite Hp).
  rewrite Hful. cbv zeta. rewrite assets_resolve.
  destruct (initialize_stops_at_missing (assets l0) i0 w0) as (what & w1 & Hinit & Hcam & _ & _ & _ & Hcalls);
    [by rewrite Hw0|done|done|].
  unfold after_chain. rewrite Hinit.
  destruct (deliver_all_settled post (resolve l0) (console_error (TypeError what) w1))
    as [Hpost Hsame]; [by rewrite Hful|].
  rewrite Hpost. exists (settle_all post (resolve l0)), what. eexists. split; [done|].
  split; [by rewrite Hsame|]. unfold console_error, log. world_simpl.
  rewrite Hcalls, <- !app_assoc. done.
Qed.

Lemma resolve_on_counts_alone_witness :
  ∃ l what w',
    main ([] ++ [Progress "models/object0.obj" 1 1]) loaded_page = (Normal l, w') ∧
    promise l = Fulfilled ∧
    calls w' = startup_calls ++ [AppendChild; ConsoleError (TypeError what)] ∧
    camera w' = None.
Proof.
  destruct (resolve_on_counts_alone [] "models/object0.obj" 1 [] 0 loaded_page
              loading0 (log startup_calls loaded_page))
    as (l & what & w' & Hrun & Hp & Hcalls & Hcam).
  - vm_compute. reflexivity.
  - reflexivity.
  - lia.
  - reflexivity.
  - reflexivity.
  - exists l, what, w'. split; [exact Hrun|]. split; [exact Hp|].
    split; [exact Hcalls|exact Hcam].
Defined.

(** ** The scene in use *)

(** What [initialize] binds is what [render] and [handleResize] read. *)
Lemma scene_built_bindings rs o w w' s p g cam spot hemi ms :
  (∀ i, (0 ≤ i < 4)%Z → is_Some (heap w !! rs i)) →
  (∀ i j, (0 ≤ i < 4)%Z → (0 ≤ j < 4)%Z → rs i = rs j → i = j) →
  scene_built rs o w w' s p g cam spot hemi ms →
  clock w' = Some {| queries := 0 |} ∧ objects w' = Some g ∧ particles w' = Some p ∧
  camera w' = Some cam ∧
  composer w' = Some {| renderer := {| antialias := false; alpha := true;
                                       shadowMapEnabled := false;
                                       canvasSize := (innerWidth w, innerHeight w);
                                       clearColor := 0xf4f4f4 |};
                        passes := [RenderPass s cam; FilmPass filmOptions true] |} ∧
  id w' = id w ∧ timers w' = timers w ∧ now w' = now w ∧ ticks w' = ticks w ∧
  calls w' = calls w ++ [AppendChild; ControlsLookAt; AddEventListener "resize"] ∧
  NoDup [rs 0%Z; rs 1%Z; rs 2%Z; rs 3%Z] ∧ (p ∉ [rs 0%Z; rs 1%Z; rs 2%Z; rs 3%Z]) ∧
  (cam ∉ [rs 0%Z; rs 1%Z; rs 2%Z; rs 3%Z]) ∧ cam ≠ p.
Proof.
  intros Hheap Hinj Hsb. unfold scene_built in Hsb.
  set (N := Z.to_nat 2000) in *. clearbody N.
  destruct Hsb as (Hw' & Hnd & Hfresh & _).
  assert (∀ r i, heap w !! r = None → (0 ≤ i < 4)%Z → r ≠ rs i) as Hnew.
  { intros r i Hr Hi ->. destruct (Hheap i Hi) as [x Hx]. congruence. }
  assert (∀ r, heap w !! r = None → r ∉ [rs 0%Z; rs 1%Z; rs 2%Z; rs 3%Z]) as Hout.
  { intros r Hr Hin.
    repeat (apply elem_of_cons in Hin as [->|Hin]; [by eapply (Hnew (rs _)); [done| |done]; lia|]).
    by apply elem_of_nil in Hin. }
  repeat split; try (rewrite Hw'; reflexivity).
  - repeat (apply NoDup_cons; split;
              [intros Hin;
               repeat (apply elem_of_cons in Hin as [Hin|Hin];
                       [apply Hinj in Hin; lia|]);
               by apply elem_of_nil in Hin|]).
    apply NoDup_nil_2.
  - apply Hout, Hfresh. cbn [app]. repeat constructor.
  - apply Hout, Hfresh. cbn [app]. repeat constructor.
  - intros ->. apply NoDup_cons in Hnd as [_ Hnd]. apply NoDup_cons in Hnd as [Hnd _].
    apply Hnd. repeat constructor.
Qed.

(** X16. The scene that [initialize] builds is the one [render] needs:
    after it, any number of frames run without an exception, and each
    model stays where it was placed on the ring while it turns about [y]
    by half of what the clock reports in total. *)
Theorem initialize_then_frames assets (rs : Z → nat) (o : Z → Object3D) w n :
  viewport w = true →
  (∀ i, (0 ≤ i < 4)%Z → assets !! ("object" +:+ pretty i) = Some (rs i)) →
  (∀ i, (0 ≤ i < 4)%Z → heap w !! rs i = Some (o i)) →
  (∀ i, (0 ≤ i < 4)%Z → parent (o i) = None) →
  (∀ i j, (0 ≤ i < 4)%Z → (0 ≤ j < 4)%Z → rs i = rs j → i = j) →
  ∃ w1 w2 g,
    initialize assets w = (Normal tt, w1) ∧ frames n w1 = (Normal tt, w2) ∧
    objects w2 = Some g ∧
    (∀ i, (0 ≤ i < 4)%Z →
       heap w2 !! rs i
       = Some (with_rotation (Euler.add_y (elapsed (ticks w) 0 n * 0.5))
                 (placed i g (o i)))) ∧
    calls w2 = calls w ++ [AppendChild; ControlsLookAt; AddEventListener "resize"] ++
               flat_map (λ q, [RequestAnimationFrame; ComposerRender (ticks w q)]) (seq 0 n).
Proof.
  intros Hview Hassets Hheap Hparent Hinj.
  destruct (initialize_run assets rs o w) as (w1 & s & p & g & cam & spot & hemi & ms & Hrun & Hsb);
    try done.
  destruct (scene_built_bindings rs o w w1 s p g cam spot hemi ms)
    as (Hclock & Hobj & Hpart & Hcam & Hcomp & _ & _ & _ & Hticks & Hcalls & Hnd & Hp & _);
    [by intros i Hi; rewrite Hheap|done|done|].
  assert (heap w1 !! g
          = Some (with_parent (Some s) (group_of [rs 0%Z; rs 1%Z; rs 2%Z; rs 3%Z])) ∧
          ∀ i, (0 ≤ i < 4)%Z → heap w1 !! rs i = Some (placed i g (o i))) as [Hg Hrs].
  { unfold scene_built in Hsb. set (N := Z.to_nat 2000) in *. clearbody N.
    destruct Hsb as (_ & _ & _ & _ & _ & _ & _ & _ & Hg & Hrs & _). by split. }
  destruct (frames_run n w1 {| queries := 0 |} g p _ _ Hclock Hobj Hpart Hcomp Hg)
    as (h2 & Hrun2 & Hh2); [done|done|].
  cbn [queries Nat.add] in Hrun2, Hh2. rewrite Hticks in Hrun2, Hh2.
  eexists w1, _, g. split; [exact Hrun|]. split; [exact Hrun2|]. world_simpl.
  split; [done|]. split.
  - intros i Hi. rewrite Hh2, (Hrs i Hi). unfold spin. cbn [children with_parent group_of].
    rewrite decide_True; [done|].
    assert (i = 0 ∨ i = 1 ∨ i = 2 ∨ i = 3)%Z as [->|[->|[->| ->]]] by lia;
      repeat constructor.
  - by rewrite Hcalls, <- app_assoc.
Qed.

Lemma initialize_then_frames_witness :
  ∃ w1 w2 g,
    initialize four_assets loaded_page = (Normal tt, w1) ∧
    frames 2 w1 = (Normal tt, w2) ∧ objects w2 = Some g ∧
    heap w2 !! 1 = Some (with_rotation (Euler.add_y (elapsed (λ _, 0%R) 0 2 * 0.5))
                           (placed 1 g (new_Object3D Model))).
Proof.
  destruct (initialize_then_frames four_assets Z.to_nat (λ _, new_Object3D Model)
              loaded_page 2)
    as (w1 & w2 & g & Hrun1 & Hrun2 & Hg & Hrs & _).
  - reflexivity.
  - apply four_assets_lookup.
  - apply four_models_lookup.
  - reflexivity.
  - intros i j Hi Hj Hij. lia.
  - exists w1, w2, g. split; [exact Hrun1|]. split; [exact Hrun2|].
    split; [exact Hg|]. apply (Hrs 1%Z). lia.
Defined.

(** X17. The scene that [initialize] builds is the one [handleResize]
    needs: after it, no sequence of resize events makes [onResize] or
    [handleResize] throw: every queued call that ran completed, so all
    that is added to the log of [initialize] is, per call, the timer firing
    followed by the projection update, and no exception escaped a call.
    66 ms after the last event the camera of the scene, still where
    [initialize] put it, has the aspect ratio of the last event and the
    composer its size, with the two passes in place.  The heights are
    positive. *)
Theorem initialize_then_resize assets (rs : Z → nat) (o : Z → Object3D) w evs ev T :
  viewport w = true →
  (∀ i, (0 ≤ i < 4)%Z → assets !! ("object" +:+ pretty i) = Some (rs i)) →
  (∀ i, (0 ≤ i < 4)%Z → heap w !! rs i = Some (o i)) →
  (∀ i, (0 ≤ i < 4)%Z → parent (o i) = None) →
  (∀ i j, (0 ≤ i < 4)%Z → (0 ≤ j < 4)%Z → rs i = rs j → i = j) →
  id w = 0%Z → timers w = [] → handling_calls w = [] →
  last evs = Some ev → (0 < ev.2.2)%Z →
  (now w + 66 ≤ T)%Z → Forall (λ e, (e.1 + 66 ≤ T)%Z) evs →
  ∃ w1 w2 s cam,
    initialize assets w = (Normal tt, w1) ∧
    (dispatch evs;; advance T) w1 = (Normal tt, w2) ∧
    camera w2 = Some cam ∧
    heap w2 !! cam
    = Some (with_position (λ v, Vector3.set v 0 10 0)
              (new_Object3D (PerspectiveCamera 45 (IZR ev.2.1 / IZR ev.2.2) 0.1 1000))) ∧
    composer w2
    = Some {| renderer := {| antialias := false; alpha := true; shadowMapEnabled := false;
                             canvasSize := ev.2; clearColor := 0xf4f4f4 |};
              passes := [RenderPass s cam; FilmPass filmOptions true] |} ∧
    id w2 = 0%Z ∧ timers w2 = [] ∧
    calls w2 = calls w ++ [AppendChild; ControlsLookAt; AddEventListener "resize"] ++
               handled (handling_calls w2) ∧
    (∀ e, Uncaught e ∈ calls w2 → Uncaught e ∈ calls w).
Proof.
  intros Hview Hassets Hheap Hparent Hinj Hid Htm Hhc Hlast Hpos HT Hevs.
  destruct (initialize_run assets rs o w) as (w1 & s & p & g & cam & spot & hemi & ms & Hrun & Hsb);
    try done.
  destruct (scene_built_bindings rs o w w1 s p g cam spot hemi ms)
    as (_ & _ & _ & Hcam & Hcomp & Hid1 & Htm1 & Hnow1 & _ & Hcalls & _);
    [by intros i Hi; rewrite Hheap|done|done|].
  assert (heap w1 !! cam
          = Some (with_position (λ v, Vector3.set v 0 10 0)
                    (new_Object3D (PerspectiveCamera 45
                       (IZR (innerWidth w) / IZR (innerHeight w)) 0.1 1000)))) as Hcam1.
  { unfold scene_built in Hsb. set (N := Z.to_nat 2000) in *. clearbody N.
    by destruct Hsb as (_ & _ & _ & _ & _ & _ & _ & _ & _ & _ & Hc & _). }
  assert (handling_calls w1 = []) as Hhc1.
  { unfold handling_calls in *. rewrite Hcalls, omap_app, Hhc. done. }
  edestruct (dispatch_settles w1)
    as (w2 & Hrun2 & Hid2 & Htm2 & Hcomp2 & Hcam2 & Hheap2 & ts & Hlog);
    [by rewrite Hid1|by rewrite Htm1|exact Hcomp|exact Hcam|exact Hhc1|exact Hlast|exact Hpos|
     |exact Hevs|].
  - by rewrite Hnow1.
  - exists w1, w2, s, cam. split; [exact Hrun|]. split; [exact Hrun2|].
    split; [exact Hcam2|].
    split; [by rewrite Hheap2, lookup_alter_eq, Hcam1|].
    split; [rewrite Hcomp2; unfold setSize; cbn; by destruct ev as [t [a b]]|].
    split; [done|]. split; [done|].
    pose proof (handling_calls_handled w1 w2 ts Hlog) as Hts.
    rewrite Hhc1 in Hts. cbn [app] in Hts. rewrite Hts.
    split; [by rewrite Hlog, Hcalls, <- !app_assoc|].
    intros e He. apply (handled_no_uncaught w1 w2 ts e Hlog) in He.
    rewrite Hcalls in He. apply elem_of_app in He as [He|He]; [done|].
    repeat (apply elem_of_cons in He as [?|He]; [done|]). by apply elem_of_nil in He.
Qed.

Lemma initialize_then_resize_witness :
  ∃ w1 w2 cam,
    initialize four_assets loaded_page = (Normal tt, w1) ∧
    (dispatch [(0, (800, 600)); (30, (1024, 768))]%Z;; advance 96) w1 = (Normal tt, w2) ∧
    heap w2 !! cam
    = Some (with_position (λ v, Vector3.set v 0 10 0)
              (new_Object3D (PerspectiveCamera 45 (1024 / 768) 0.1 1000))).
Proof.
  destruct (initialize_then_resize four_assets Z.to_nat (λ _, new_Object3D Model)
              loaded_page [(0, (800, 600)); (30, (1024, 768))]%Z (30, (1024, 768))%Z 96)
    as (w1 & w2 & s & cam & Hrun1 & Hrun2 & _ & Hcam & _).
  - reflexivity.
  - apply four_assets_lookup.
  - apply four_models_lookup.
  - reflexivity.
  - intros i j Hi Hj Hij. lia.
  - reflexivity.
  - reflexivity.
  - reflexivity.
  - reflexivity.
  - cbn. lia.
  - cbn. lia.
  - repeat (apply Forall_cons_2; [cbn; lia|]). apply Forall_nil_2.
  - exists w1, w2, cam. split; [exact Hrun1|]. split; [exact Hrun2|exact Hcam].
Defined.

(** ** What [initialize] and [render] log, whatever happens *)

(** Whatever the assets and the world, [initialize] either completes with
    its three calls logged, the listener last, or throws a [TypeError]
    before it has registered the listener. *)
Lemma initialize_log assets w :
  wp (initialize assets)
     (λ _ w', calls w' = calls w ++ [AppendChild; ControlsLookAt; AddEventListener "resize"])
     (λ e w', ∃ what cs, e = TypeError what ∧ calls w' = calls w ++ cs ∧
                         initialize_stopped cs) w.
Proof.
  unfold initialize. wp_steps.
  destruct (viewport w).
  2:{ apply wp_throw. world_simpl. exists "viewport", []. rewrite app_nil_r.
      split; [done|]. split; [done|]. by left. }
  wp_steps. apply wp_createParticleCloud. intros h ms p _ _. clearbody p.
  assert (∀ what w', calls w' = calls w ++ [AppendChild] →
            ∃ what' cs, TypeError what = TypeError what' ∧ calls w' = calls w ++ cs ∧
                        initialize_stopped cs) as H1.
  { intros what w' Hw'. exists what, [AppendChild]. split; [done|]. split; [done|].
    right. by left. }
  assert (∀ what w', calls w' = calls w ++ [AppendChild; ControlsLookAt] →
            ∃ what' cs, TypeError what = TypeError what' ∧ calls w' = calls w ++ cs ∧
                        initialize_stopped cs) as H2.
  { intros what w' Hw'. exists what, [AppendChild; ControlsLookAt]. split; [done|].
    split; [done|]. right. by right. }
  wp_steps. apply wp_add_any; [|by apply H1].
  intros h1. wp_steps. unfold for_.
  apply (wp_for_from (λ _ _ w', calls w' = calls w ++ [AppendChild])).
  { done. }
  { intros k angle w' _ Hw'. wp_step. apply wp_defined.
    destruct (assets !! _) as [obj|]; [|by apply H1].
    wp_steps. apply wp_add_any; [|by apply H1].
    intros h2. wp_steps. done. }
  intros angle w' Hw'. wp_step.
  apply wp_add_any; [|by apply H1].
  intros h2. wp_steps.
  apply wp_add_any; [|apply H2; world_simpl; by rewrite Hw', <- app_assoc].
  intros h3. wp_steps.
  apply wp_add_any; [|apply H2; world_simpl; by rewrite Hw', <- app_assoc].
  intros h4. wp_steps. apply wp_defined.
  destruct (composer w').
  - wp_steps. world_simpl. by rewrite Hw', <- !app_assoc.
  - apply H2. world_simpl. by rewrite Hw', <- app_assoc.
Qed.

(** Whatever the world, [render] asks for the next frame first; it either
    completes, with the composer rendered last, or throws a [TypeError]
    before the composer has rendered. *)
Lemma render_log now w :
  wp (render now)
     (λ _ w', ∃ d, calls w' = calls w ++ [RequestAnimationFrame; ComposerRender d])
     (λ e w', ∃ what, e = TypeError what ∧ calls w' = calls w ++ [RequestAnimationFrame]) w.
Proof.
  unfold render, getDelta. wp_steps. apply wp_defined.
  destruct (clock w) as [c|]; [|by eexists].
  wp_steps. apply wp_defined.
  destruct (objects w) as [g|]; [|by eexists].
  wp_step. apply wp_deref. world_simpl.
  destruct (heap w !! g) as [grp|]; [|by eexists].
  wp_step. unfold for_.
  apply (wp_for_from (λ _ _ w', calls w' = calls w ++ [RequestAnimationFrame] ∧
                               particles w' = particles w ∧ composer w' = composer w)).
  { done. }
  { intros k [] w' _ (Hw' & Hp & Hc). wp_step. apply wp_defined.
    destruct (children grp !! _) as [child|]; [|by eexists].
    wp_steps. done. }
  intros [] w' (Hw' & Hp & Hc). wp_steps. rewrite Hp. apply wp_defined.
  destruct (particles w) as [p|]; [|by eexists].
  wp_steps. rewrite Hc. apply wp_defined.
  destruct (composer w) as [comp|]; [|by eexists].
  wp_steps. world_simpl. eexists. by rewrite Hw', <- app_assoc.
Qed.

(** ** Every run of [main] *)

(** C8. No failure of the startup sequence escapes [main], and each one
    ends in the one [catch] of the chain, which logs it and does nothing
    else.  Whatever the loader calls back: [main] completes normally.  If
    the promise of [load] is rejected, the world is the one of that moment
    plus the logged error; nothing of [initialize] or [render] has run.  If
    it is fulfilled and [initialize] throws, which it can only do with a
    [TypeError] and before it has registered the resize listener, the world
    is the one in which it threw plus the logged error, and [render] has
    not run.  If [initialize] completes and [render] throws, which it can
    only do with a [TypeError] after it has asked for the next frame and
    before the composer has rendered, the world is the one in which it
    threw plus the logged error.  After any of these, late deliveries only
    add their log lines. *)
Theorem failures_reach_catch evs w :
  ∃ l w', main evs w = (Normal l, w') ∧
    match promise l with
    | Pending => w' = log (startup_calls ++ console_of evs) w
    | Rejected e =>
        ∃ pre url post, evs = pre ++ Failed url :: post ∧ e = LoadError url ∧
          w' = log (console_of post)
                 (console_error e (log (startup_calls ++ console_of pre) w))
    | Fulfilled =>
        ∃ pre item n post a w0,
          evs = pre ++ Progress item n n :: post ∧
          w0 = log (startup_calls ++ console_of pre) w ∧
          main pre w = (Normal {| assets := a; promise := Pending |}, w0) ∧
          match initialize a w0 with
          | (Throw e, w1) =>
              w' = log (console_of post) (console_error e w1) ∧
              ∃ what cs, e = TypeError what ∧ calls w1 = calls w0 ++ cs ∧
                         initialize_stopped cs
          | (Normal _, w1) =>
              calls w1 = calls w0 ++ [AppendChild; ControlsLookAt; AddEventListener "resize"] ∧
              match render None w1 with
              | (Throw e, w2) =>
                  w' = log (console_of post) (console_error e w2) ∧
                  ∃ what, e = TypeError what ∧
                          calls w2 = calls w1 ++ [RequestAnimationFrame]
              | (Normal _, w2) =>
                  w' = log (console_of post) w2 ∧
                  ∃ d, calls w2 = calls w1 ++ [RequestAnimationFrame; ComposerRender d]
              end
          end
    end.
Proof.
  rewrite main_unfold.
  destruct (deliver_all_pending evs loading0 (log startup_calls w)) as (w' & Hrun & Hw');
    [done|].
  exists (settle_all evs loading0), w'. split; [done|].
  destruct (promise (settle_all evs loading0)) as [| |e].
  - by rewrite Hw', log_log.
  - destruct Hw' as (pre & item & n & post & -> & Hpre & ->).
    exists pre, item, n, post, (assets (settle_all pre loading0)),
      (log (startup_calls ++ console_of pre) w).
    split; [done|]. split; [done|]. split.
    { rewrite main_unfold.
      destruct (deliver_all_still_pending pre loading0 (log startup_calls w) Hpre)
        as [_ Hrun0].
      rewrite Hrun0, log_log.
      destruct (settle_all pre loading0) as [a p]. cbn in Hpre. by subst p. }
    rewrite log_log. unfold after_chain.
    set (w0 := log (startup_calls ++ console_of pre) w).
    pose proof (initialize_log (assets (settle_all pre loading0)) w0) as Hinit.
    unfold wp in Hinit.
    destruct (initialize (assets (settle_all pre loading0)) w0) as [[[]|e] w1]; [|done].
    split; [done|].
    pose proof (render_log None w1) as Hrender. unfold wp in Hrender.
    by destruct (render None w1) as [[[]|e] w2].
  - destruct Hw' as (pre & url & post & -> & -> & Hpre & ->).
    exists pre, url, post. by rewrite log_log.
Qed.

Lemma failures_reach_catch_witness :
  ∃ l w',
    main (completions 0 [0; 1; 2; 3]%Z Z.to_nat) bare_page = (Normal l, w') ∧
    promise l = Fulfilled ∧
    calls w' = startup_calls ++ console_of (completions 0 [0; 1; 2; 3]%Z Z.to_nat) ++
               [ConsoleError (TypeError "viewport")].
Proof.
  destruct (failures_reach_catch (completions 0 [0; 1; 2; 3]%Z Z.to_nat) bare_page)
    as (l & w' & Hrun & _).
  exists l, w'. split; [exact Hrun|].
  assert (∃ l0 w0, main (completions 0 [0; 1; 2; 3]%Z Z.to_nat) bare_page = (Normal l0, w0) ∧
            promise l0 = Fulfilled ∧
            calls w0 = startup_calls ++ console_of (completions 0 [0; 1; 2; 3]%Z Z.to_nat) ++
                       [ConsoleError (TypeError "viewport")]) as (l0 & w0 & Hrun0 & H).
  { eexists _, _. split; [vm_compute; reflexivity|]. split; reflexivity. }
  rewrite Hrun0 in Hrun. injection Hrun as <- <-. exact H.
Defined.

(** ** When a request fails *)

Lemma settling_app a : ∀ k b,
  settling k (a ++ b) = settling k a ++ settling (k + Z.of_nat (length a)) b.
Proof.
  induction a as [|[i [obj|]] a IH]; intros k b.
  - cbn. by rewrite Z.add_0_r.
  - cbn [app settling length]. rewrite IH. do 4 f_equal. lia.
  - cbn [app settling length]. rewrite IH. do 4 f_equal. lia.
Qed.

Lemma settling_succeed objs order : ∀ k,
  settling k (succeed objs order) = completions k order objs.
Proof. induction order as [|i order IH]; intros k; [done|]. cbn. by rewrite IH. Qed.

Lemma length_succeed objs order : length (succeed objs order) = length order.
Proof. unfold succeed. apply length_fmap. Qed.

(** Fewer than four items have ended: the promise is still pending. *)
Lemma completions_short objs order : ∀ k l,
  promise l = Pending → (k + Z.of_nat (length order) < 4)%Z →
  promise (settle_all (completions k order objs) l) = Pending.
Proof.
  induction order as [|i order IH]; intros k l Hl Hk; [done|].
  cbn [completions]. change (settle_all (?a :: ?b :: ?evs) l)
    with (settle_all evs (settle b (settle a l))).
  cbn [length] in Hk. apply IH; [|lia].
  cbn. assert ((k + 1 =? 4)%Z = false) as -> by lia. done.
Qed.

Lemma completions_assets_missing objs order i : ∀ k l,
  i ∉ order → assets l !! ("object" +:+ pretty i) = None →
  assets (settle_all (completions k order objs) l) !! ("object" +:+ pretty i) = None.
Proof.
  induction order as [|j order IH]; intros k l Hi Hl; [done|].
  cbn [completions]. change (settle_all (?a :: ?b :: ?evs) l)
    with (settle_all evs (settle b (settle a l))).
  apply not_elem_of_cons in Hi as [Hij Hi].
  apply IH; [done|]. rewrite settle_assets_other by done.
  rewrite settle_assets_other; [done|]. intros obj [= Hji _]. done.
Qed.

(** The run in which three requests succeed and the fourth, [i], fails:
    the manager counts the failed item, so its progress report, the fourth
    of four, fulfils the promise before the error is reported. *)
Lemma last_failure_run objs order i w :
  order ++ [i] ≡ₚ [0; 1; 2; 3]%Z →
  let pre := completions 0 order objs in
  let a := assets (settle_all pre loading0) in
  let w0 := log (startup_calls ++ console_of pre) w in
  settling 0 (succeed objs order ++ [(i, Fails)])
  = pre ++ [Progress (model_url i) 4 4; Failed (model_url i)] ∧
  main pre w = (Normal (settle_all pre loading0), w0) ∧
  promise (settle_all pre loading0) = Pending ∧
  (∃ l, main (settling 0 (succeed objs order ++ [(i, Fails)])) w
        = (Normal l, after_chain a w0) ∧
        promise l = Fulfilled ∧ assets l = a) ∧
  (0 ≤ i < 4)%Z ∧ a !! ("object" +:+ pretty i) = None ∧
  (∀ j, j ∈ order → a !! ("object" +:+ pretty j) = Some (objs j)).
Proof.
  intros Hperm pre a w0.
  assert (length order = 3) as Hlen.
  { apply Permutation_length in Hperm. rewrite length_app in Hperm. cbn in Hperm. lia. }
  assert (NoDup (order ++ [i])) as Hnd by (rewrite Hperm; compute_done).
  assert (i ∉ order) as Hi.
  { apply NoDup_app in Hnd as (_ & Hdis & _). intros Hin. apply (Hdis i Hin). by left. }
  assert ((0 ≤ i < 4)%Z) as Hrange.
  { assert (i ∈ order ++ [i]) as Hin by (apply elem_of_app; right; by left).
    rewrite Hperm in Hin.
    repeat (apply elem_of_cons in Hin as [->|Hin]; [lia|]). by apply elem_of_nil in Hin. }
  assert (settling 0 (succeed objs order ++ [(i, Fails)])
          = pre ++ [Progress (model_url i) 4 4; Failed (model_url i)]) as Htrace.
  { rewrite settling_app, settling_succeed, length_succeed, Hlen. done. }
  assert (promise (settle_all pre loading0) = Pending) as Hpre.
  { apply completions_short; [done|]. rewrite Hlen. lia. }
  destruct (deliver_all_still_pending pre loading0 (log startup_calls w) Hpre) as [_ Hrun].
  rewrite log_log in Hrun. fold w0 in Hrun.
  split; [done|]. split; [by rewrite main_unfold|]. split; [done|].
  split; [|split; [done|split]].
  - rewrite Htrace, main_unfold, deliver_all_app, Hrun.
    cbn [deliver_all]. unfold bind. rewrite !deliver_settle. cbv zeta.
    cbn [settle console_of omap list_omap Z.eqb Pos.eqb]. rewrite !log_nil.
    assert (promise (resolve (settle_all pre loading0)) = Fulfilled) as Hful
      by (unfold resolve; by rewrite Hpre).
    assert (reject (LoadError (model_url i)) (resolve (settle_all pre loading0))
            = resolve (settle_all pre loading0)) as Hrej
      by (unfold reject; by rewrite Hful).
    rewrite Hpre, Hful, Hrej, assets_resolve.
    eexists. split; [reflexivity|]. split; [done|]. apply assets_resolve.
  - by apply completions_assets_missing.
  - intros j Hj. apply completions_assets. by left.
Qed.

(** C5.  The runs in which the code departs from the claim.  When three requests have
    succeeded and the fourth fails, the promise of [load] is not rejected:
    it is pending until the failure, and the progress report that three.js
    makes for the failed item, the fourth of four, fulfils it; the error
    that follows is dropped.  This holds whichever request fails and in
    whatever order the other three succeeded. *)
Theorem load_fulfils_when_last_request_fails objs order i w :
  order ++ [i] ≡ₚ [0; 1; 2; 3]%Z →
  (∃ l0 w0, main (settling 0 (succeed objs order)) w = (Normal l0, w0) ∧
            promise l0 = Pending) ∧
  ∃ l w', main (settling 0 (succeed objs order ++ [(i, Fails)])) w = (Normal l, w') ∧
          promise l = Fulfilled ∧
          ∀ e, ConsoleError (LoadError e) ∈ calls w' → ConsoleError (LoadError e) ∈ calls w.
Proof.
  intros Hperm.
  destruct (last_failure_run objs order i w Hperm)
    as (_ & Hpre & Hpend & (l & Hrun & Hful & _) & _).
  split.
  - rewrite settling_succeed. eauto.
  - eexists l, _. split; [exact Hrun|]. split; [exact Hful|].
    intros e. unfold after_chain.
    set (w0 := log (startup_calls ++ console_of (completions 0 order objs)) w).
    set (a := assets _).
    assert (∀ w1 cs, calls w1 = calls w0 ++ cs →
              Forall (λ c, ∀ e', c ≠ ConsoleError (LoadError e')) cs →
              ConsoleError (LoadError e) ∈ calls w1 → ConsoleError (LoadError e) ∈ calls w)
      as Hclean.
    { intros w1 cs -> Hcs [Hin|Hin]%elem_of_app.
      - unfold w0, log in Hin. world_simpl in Hin.
        apply elem_of_app in Hin as [Hin|Hin]; [done|]. exfalso.
        apply elem_of_app in Hin as [Hin|Hin].
        + repeat (apply elem_of_cons in Hin as [?|Hin]; [done|]).
          by apply elem_of_nil in Hin.
        + unfold console_of in Hin. apply list_elem_of_omap in Hin as (ev & _ & Hev).
          by destruct ev.
      - exfalso. rewrite Forall_forall in Hcs. by apply (Hcs _ Hin e). }
    pose proof (initialize_log a w0) as Hinit. unfold wp in Hinit.
    destruct (initialize a w0) as [[[]|e1] w1].
    + pose proof (render_log None w1) as Hrender. unfold wp in Hrender.
      destruct (render None w1) as [[[]|e2] w2].
      * destruct Hrender as [d Hd]. rewrite Hinit, <- app_assoc in Hd.
        apply (Hclean _ _ Hd). repeat (apply Forall_cons_2; [done|]). apply Forall_nil_2.
      * destruct Hrender as (what & -> & Hd). rewrite Hinit, <- app_assoc in Hd.
        unfold console_error, log. world_simpl. rewrite Hd, <- app_assoc.
        apply (Hclean (set_calls _ w2) _ eq_refl).
        repeat (apply Forall_cons_2; [done|]). apply Forall_nil_2.
    + destruct Hinit as (what & cs & -> & Hd & Hcs).
      unfold console_error, log. world_simpl. rewrite Hd, <- app_assoc.
      apply (Hclean (set_calls _ w1) _ eq_refl).
      apply Forall_app. split; [|by apply Forall_singleton].
      destruct Hcs as [->|[->| ->]]; repeat (apply Forall_cons_2; [done|]); apply Forall_nil_2.
Qed.

Lemma load_fulfils_when_last_request_fails_witness :
  ∃ l w', main (settling 0 (succeed Z.to_nat [0; 1; 2]%Z ++ [(3%Z, Fails)])) loaded_page
          = (Normal l, w') ∧ promise l = Fulfilled.
Proof.
  destruct (load_fulfils_when_last_request_fails Z.to_nat [0; 1; 2]%Z 3 loaded_page)
    as (_ & l & w' & Hrun & Hful & _).
  - reflexivity.
  - exists l, w'. split; [exact Hrun|exact Hful].
Defined.

(** C7.  The runs in which the code departs from the claim.  In the same runs, on a page with
    a viewport, [initialize] is invoked with a partial set of assets: the
    three models that were delivered are under their keys, the key of the
    failed request is missing.  [initialize] attaches the renderer, builds
    the cloud and throws a [TypeError] at the missing model; the chain's
    [catch] logs it; no camera is bound and no frame is requested. *)
Theorem initialize_runs_on_partial_assets objs order i w :
  order ++ [i] ≡ₚ [0; 1; 2; 3]%Z → viewport w = true →
  ∃ l what w',
    main (settling 0 (succeed objs order ++ [(i, Fails)])) w = (Normal l, w') ∧
    promise l = Fulfilled ∧
    assets l !! ("object" +:+ pretty i) = None ∧
    (∀ j, j ∈ order → assets l !! ("object" +:+ pretty j) = Some (objs j)) ∧
    calls w' = calls w ++ startup_calls ++ console_of (settling 0 (succeed objs order)) ++
               [AppendChild; ConsoleError (TypeError what)] ∧
    camera w' = camera w.
Proof.
  intros Hperm Hview.
  destruct (last_failure_run objs order i w Hperm)
    as (_ & _ & _ & (l & Hrun & Hful & Ha) & Hi & Hmiss & Hkeys).
  destruct (initialize_stops_at_missing
              (assets (settle_all (completions 0 order objs) loading0)) i
              (log (startup_calls ++ console_of (completions 0 order objs)) w))
    as (what & w1 & Hinit & Hcam & _ & _ & _ & Hcalls); [done|done|done|].
  unfold after_chain in Hrun. rewrite Hinit in Hrun.
  exists l, what. eexists. split; [exact Hrun|]. split; [exact Hful|].
  rewrite Ha. split; [exact Hmiss|]. split; [exact Hkeys|].
  unfold console_error, log. world_simpl. rewrite settling_succeed.
  split; [|done]. rewrite Hcalls. unfold log. world_simpl. by rewrite <- !app_assoc.
Qed.

Lemma initialize_runs_on_partial_assets_witness :
  ∃ l what w',
    main (settling 0 (succeed Z.to_nat [1; 3; 0]%Z ++ [(2%Z, Fails)])) loaded_page
    = (Normal l, w') ∧
    assets l !! "object2" = None ∧
    calls w' = startup_calls ++ console_of (settling 0 (succeed Z.to_nat [1; 3; 0]%Z)) ++
               [AppendChild; ConsoleError (TypeError what)].
Proof.
  destruct (initialize_runs_on_partial_assets Z.to_nat [1; 3; 0]%Z 2 loaded_page)
    as (l & what & w' & Hrun & _ & Hmiss & _ & Hcalls & _).
  - apply (Permutation_sym (l' := [1; 3; 0; 2]%Z)). compute_done.
  - reflexivity.
  - exists l, what, w'. split; [exact Hrun|]. split; [exact Hmiss|exact Hcalls].
Defined.

(** X19. When a request fails before three others have ended, the promise
    of [load] is rejected by that failure, with the failure as its reason:
    it is pending until then, the progress report that three.js makes for
    the failed item does not fulfil it, and whatever the other requests do
    afterwards it stays rejected.  Nothing is retried and nothing of
    [initialize] runs: all that the run leaves in the world are the
    requests, a log line per delivered model and the logged error. *)
Theorem load_rejects_unless_last objs order i rest w :
  (Z.of_nat (length order) < 3)%Z →
  let e := LoadError (model_url i) in
  let pre := settling 0 (succeed objs order) in
  let post := settling (Z.of_nat (length order) + 1) rest in
  (∃ l0, main (pre ++ [Progress (model_url i) (Z.of_nat (length order) + 1) 4]) w
         = (Normal l0, log (startup_calls ++ console_of pre) w) ∧ promise l0 = Pending) ∧
  ∃ l, main (settling 0 (succeed objs order ++ (i, Fails) :: rest)) w
       = (Normal l,
          log (console_of post) (console_error e (log (startup_calls ++ console_of pre) w))) ∧
       promise l = Rejected e.
Proof.
  intros Hlen e pre post.
  assert (pre = completions 0 order objs) as Hpre by apply settling_succeed.
  set (k := Z.of_nat (length order)) in *.
  set (p := Progress (model_url i) (k + 1) 4).
  assert (promise (settle_all (pre ++ [p]) loading0) = Pending) as Hpend.
  { unfold settle_all. rewrite foldl_app. fold (settle_all pre loading0). cbn.
    assert ((k + 1 =? 4)%Z = false) as -> by lia.
    rewrite Hpre. apply completions_short; [done|]. fold k. lia. }
  destruct (deliver_all_still_pending (pre ++ [p]) loading0 (log startup_calls w) Hpend)
    as [_ Hrun].
  assert (console_of (pre ++ [p]) = console_of pre) as Hcon.
  { unfold console_of. rewrite omap_app. cbn. apply app_nil_r. }
  rewrite log_log, Hcon in Hrun.
  split.
  - eexists. rewrite main_unfold. split; [exact Hrun|exact Hpend].
  - assert (settling 0 (succeed objs order ++ (i, Fails) :: rest)
            = (pre ++ [p]) ++ Failed (model_url i) :: post) as ->.
    { rewrite settling_app, length_succeed. cbn [settling]. fold k.
      rewrite Z.add_0_l. by rewrite <- app_assoc. }
    rewrite main_unfold, deliver_all_app, Hrun.
    cbn [deliver_all]. unfold bind. rewrite deliver_settle, Hpend. cbv zeta.
    cbn [settle console_of omap list_omap]. rewrite log_nil.
    assert (promise (reject e (settle_all (pre ++ [p]) loading0)) = Rejected e) as Hrej
      by (unfold reject; by rewrite Hpend).
    fold e. rewrite Hrej.
    destruct (deliver_all_settled post (reject e (settle_all (pre ++ [p]) loading0))
                (console_error e (log (startup_calls ++ console_of pre) w))) as [Hpost Hp];
      [congruence|].
    eexists. split; [exact Hpost|]. by rewrite Hp.
Qed.

Lemma load_rejects_unless_last_witness :
  ∃ l, main (settling 0 (succeed Z.to_nat [1%Z] ++ (2%Z, Fails) :: [(0%Z, Succeeds 0)]))
         loaded_page
       = (Normal l,
          log [ConsoleLog "Loaded object 0"]
            (console_error (LoadError (model_url 2))
               (log (startup_calls ++ [ConsoleLog "Loaded object 1"]) loaded_page))) ∧
       promise l = Rejected (LoadError (model_url 2)).
Proof.
  destruct (load_rejects_unless_last Z.to_nat [1%Z] 2 [(0%Z, Succeeds 0)] loaded_page)
    as (_ & l & Hrun & Hp).
  - cbn. lia.
  - exists l. split; [exact Hrun|exact Hp].
Defined.

(** ** [createParticleCloud] on any number *)











